(** * SEA International Trade Dashboard: the aggregation layer of [app.py]

    A shallow embedding of the loader and of the callbacks of [src/app.py]
    that compute tables and numbers ([kpis], [update_table],
    [update_top_partners], [chart_a], [chart_b], [chart_c], [chart_d],
    [chart_g]) together with the module-level settings derived from the
    loaded frame ([COUNTRY_CHOICES], [YEAR_MIN], [YEAR_MAX], the two default
    filter values) and the two callbacks of the sidebar.

    Modelling conventions.
    - A pandas frame is a list of records in row order.
    - [export_USD], [import_USD] and [trade_balance_USD] are float64
      columns.  Every finite float64 is a rational number, so an amount is a
      rational [Q]; equality of amounts is [==].  The operations on amounts
      round: they are the fields of an arithmetic [Arith], of which
      [binary64] rounds as IEEE 754 does and [exact_arith] does not round.
      The definitions named [_with], and [chart_a] and [naive_scan], take
      the arithmetic as a parameter; the others are written in exact
      arithmetic, and what is proved of them is a statement about exact
      sums, which the code computes up to rounding.
    - [year] is an int64 column; a year is an integer [Z], which the
      loader keeps within the range of int64.
    - The four label columns are pandas categoricals.  Their category list
      is the sorted list of distinct labels of the whole frame, and a
      filtered frame keeps the category list of the frame it was cut from.
    - A [groupby] on a categorical key emits, by default, either every
      category (pandas before 3.0, [observed=False]) or only the categories
      that occur in the grouped rows (pandas 3.0 and later,
      [observed=True]).  The source does not pass [observed], so the
      embedding takes the default as the parameter [observed : bool] and
      the results below are stated for both values unless said otherwise.
      For [observed=False] the embedding follows pandas 2.3.
    - A figure is represented by the data handed to plotly. *)

From Stdlib Require Import ZArith QArith Qminmax Qround String Ascii Bool.
From Stdlib Require Import DecimalString OrderedTypeEx Morphisms Setoid.
From Stdlib Require Import List Permutation Sorted Lia Lqa Qabs.
From Stdlib Require DecimalPos DecimalZ.
Import ListNotations.

Local Open Scope list_scope.
Local Open Scope Q_scope.

(* ================================================================== *)
(** * Numbers and text *)

(** The exact sum of a column; the empty sum is 0. *)
Definition Qsum (l : list Q) : Q := fold_right Qplus 0 l.

(** Python's [int(v)] on a float: truncation toward zero. *)
Definition py_int (v : Q) : Z := Z.quot (Qnum v) (Zpos (Qden v)).

(** [str(n)] for an integer [n]. *)
Definition py_str (n : Z) : string := NilZero.string_of_int (Z.to_int n).

(** Grouping of a reversed digit sequence in threes, for the [,] format
    option. *)
Fixpoint commas_rev (ds : list ascii) : list ascii :=
  match ds with
  | a :: b :: c :: ((_ :: _) as rest) =>
      a :: b :: c :: ","%char :: commas_rev rest
  | _ => ds
  end.

(** [f"{n:,}"] for an integer [n]: decimal digits grouped in threes, with a
    leading minus sign for a negative number. *)
Definition format_thousands (n : Z) : string :=
  let digits :=
    list_ascii_of_string (NilZero.string_of_uint (N.to_uint (Z.abs_N n))) in
  let body := string_of_list_ascii (rev (commas_rev (rev digits))) in
  if (n <? 0)%Z then String "-"%char body else body.

(** [fmt = lambda v: f"{int(v):,}"] (inside [kpis]). *)
Definition fmt (v : Q) : string := format_thousands (py_int v).

(* ================================================================== *)
(** * Float arithmetic *)

(** An amount that is a whole number of dollars. *)
Definition whole (q : Q) : Prop := exists z : Z, q == inject_Z z.

(** The operations of the aggregations on float64 values:
    [fadd] and [fsub] are [+] and [-] on two columns, element by element;
    [fsum] is [Series.sum()] (numpy's pairwise summation);
    [gsum] is the sum of the values of one group, in row order, inside
    [groupby(...).sum()] and [groupby(...).agg(...)] (pandas' compensated
    summation). *)
Record Arith : Type := mkArith {
  fadd : Q -> Q -> Q;
  fsub : Q -> Q -> Q;
  fsum : list Q -> Q;
  gsum : list Q -> Q
}.

(** 2^53: up to this magnitude every whole number is a float64. *)
Definition two53 : Q := inject_Z (2 ^ 53).

(** What the statements below use of float64 arithmetic: an operation on
    whole numbers whose absolute values add up to at most 2^53 is exact.
    Each step of such an operation, in whatever order the steps are taken
    and with or without a compensation term, has a whole number of
    magnitude at most 2^53 as its exact result, and IEEE 754 returns the
    exact result when it is a float64.  (The same holds of an int64
    column.) *)
Record ArithContract (A : Arith) : Prop := mkArithContract {
  fadd_whole : forall a b, whole a -> whole b ->
    Qabs a + Qabs b <= two53 -> fadd A a b == a + b;
  fsub_whole : forall a b, whole a -> whole b ->
    Qabs a + Qabs b <= two53 -> fsub A a b == a - b;
  fsum_whole : forall l, (forall v, In v l -> whole v) ->
    Qsum (map Qabs l) <= two53 -> fsum A l == Qsum l;
  gsum_whole : forall l, (forall v, In v l -> whole v) ->
    Qsum (map Qabs l) <= two53 -> gsum A l == Qsum l
}.

(** Arithmetic without rounding. *)
Definition exact_arith : Arith :=
  {| fadd := Qplus; fsub := Qminus; fsum := Qsum; gsum := Qsum |}.

(** The integer nearest to [n / d], the even one of two that are equally
    near ([0 <= n], [0 < d]). *)
Definition round_half_even (n d : Z) : Z :=
  let q := (n / d)%Z in
  let r := (n mod d)%Z in
  match (2 * r ?= d)%Z with
  | Lt => q
  | Gt => (q + 1)%Z
  | Eq => if Z.even q then q else (q + 1)%Z
  end.

(** The float64 nearest to a rational, ties to even (IEEE 754 binary64,
    round to nearest): a significand [m] of at most 53 bits and an
    exponent [e >= -1074] with value [m * 2^e], as a reduced fraction.
    Overflow to infinity, at 2^1024, is not modelled. *)
Definition round64 (v : Q) : Q :=
  let v := Qred v in
  let n := Qnum v in
  let d := Zpos (Qden v) in
  if (n =? 0)%Z then 0
  else
    let a := Z.abs n in
    let e1 := (Z.log2 a - Z.log2 d - 52)%Z in
    let e2 :=
      if (a * 2 ^ Z.max 0 (- e1) <? 2 ^ 52 * (d * 2 ^ Z.max 0 e1))%Z
      then (e1 - 1)%Z else e1 in
    let e := Z.max e2 (-1074) in
    let m := round_half_even (a * 2 ^ Z.max 0 (- e)) (d * 2 ^ Z.max 0 e) in
    Qred (if (0 <=? e)%Z then inject_Z (Z.sgn n * m * 2 ^ e)
          else Qmake (Z.sgn n * m) (Z.to_pos (2 ^ (- e)))).

(** Summation from left to right, each addition rounded.  This is what
    numpy's summation does on fewer than 8 values, and what pandas'
    grouped summation does on a group of at most 2 values (its
    compensation term is first used by the third value). *)
Definition sum_left (l : list Q) : Q :=
  fold_left (fun acc v => round64 (acc + v)) l 0.

(** Float64 arithmetic for short columns; the worked examples are run in
    it. *)
Definition binary64 : Arith :=
  {| fadd := fun a b => round64 (a + b);
     fsub := fun a b => round64 (a - b);
     fsum := sum_left;
     gsum := sum_left |}.

(* ================================================================== *)
(** * Data model *)

(** One row of [sea_data] after the loader has run. *)
Record TradeRecord : Type := mkTradeRecord {
  country : string;
  country_code : string;
  partner_name : string;
  partner_name_code : string;
  year : Z;
  export_USD : Q;
  import_USD : Q;
  trade_balance_USD : Q
}.

Definition DataFrame : Type := list TradeRecord.

(* ================================================================== *)
(** * Loader (lines 20-37) *)

(** The texts that [pd.read_csv] reads as a missing value (its default
    [na_values]); the empty field is one of them. *)
Definition na_values : list string :=
  [ EmptyString; "#N/A"; "#N/A N/A"; "#NA"; "-1.#IND"; "-1.#QNAN"; "-NaN";
    "-nan"; "1.#IND"; "1.#QNAN"; "<NA>"; "N/A"; "NA"; "NULL"; "NaN"; "None";
    "n/a"; "nan"; "null" ]%string.

(** One row of a csv file: the text of its eight fields, in column order.
    The files are taken to be well-formed csv files with the same header
    of eight columns ([read_csv] raises on a malformed file, and line 29
    raises when [pd.concat] has put together more or fewer than eight
    columns; these files are outside the model). *)
Record CsvRow : Type := mkCsvRow {
  csv_country : string;
  csv_country_code : string;
  csv_partner_name : string;
  csv_partner_name_code : string;
  csv_year : string;
  csv_export_USD : string;
  csv_import_USD : string;
  csv_trade_balance_USD : string
}.

Inductive LoadError : Type :=
| NoObjectsToConcatenate   (* pd.concat([]) : ValueError *)
| IntCastingNaNError       (* .astype(int) on a column holding NaN *)
| TextAmountColumn.        (* no exception: see [load] *)

(** A field that [read_csv] reads as NaN. *)
Definition isna (field : string) : bool :=
  existsb (String.eqb field) na_values.


(** The row filter of [dropna(axis=0, how="any")]. *)
Definition row_notna (r : CsvRow) : bool :=
  negb (isna (csv_country r)) && negb (isna (csv_country_code r)) &&
  negb (isna (csv_partner_name r)) && negb (isna (csv_partner_name_code r)) &&
  negb (isna (csv_year r)) &&
  negb (isna (csv_export_USD r)) && negb (isna (csv_import_USD r)) &&
  negb (isna (csv_trade_balance_USD r)).

Definition dropna (rows : list CsvRow) : list CsvRow := filter row_notna rows.

(** [pd.to_numeric(col, errors="coerce")]: the number that each field
    reads as, and NaN for a field that does not read as a number.  How
    pandas reads the text of a field as a float64 is the parameter
    [to_number]. *)
Definition to_numeric_coerce (to_number : string -> option Q)
    (col : list string) : list (option Q) :=
  map to_number col.

(** The conversion of one float64 to int64: truncation toward zero.  A
    value outside the range of int64 has no defined conversion in C; on
    x86-64 the result is -2^63. *)
Definition float_to_int64 (v : Q) : Z :=
  let z := py_int v in
  if ((- 2 ^ 63 <=? z) && (z <? 2 ^ 63))%Z then z else (- 2 ^ 63)%Z.

(** [col.astype(int)]: raises as soon as one value is NaN ([None]), and
    converts the others. *)
Fixpoint astype_int (col : list (option Q)) : option (list Z) :=
  match col with
  | [] => Some []
  | None :: _ => None
  | Some v :: rest => option_map (cons (float_to_int64 v)) (astype_int rest)
  end.

(** The record of a cleaned row and its converted year, when the three
    amount fields read as numbers. *)
Definition typed_row (to_number : string -> option Q) (r : CsvRow) (y : Z)
    : option TradeRecord :=
  match to_number (csv_export_USD r), to_number (csv_import_USD r),
        to_number (csv_trade_balance_USD r) with
  | Some e, Some i, Some b =>
      Some {| country := csv_country r;
              country_code := csv_country_code r;
              partner_name := csv_partner_name r;
              partner_name_code := csv_partner_name_code r;
              year := y;
              export_USD := e;
              import_USD := i;
              trade_balance_USD := b |}
  | _, _, _ => None
  end.

Fixpoint typed_rows (to_number : string -> option Q) (rows : list CsvRow)
    (years : list Z) : option DataFrame :=
  match rows, years with
  | r :: rows', y :: years' =>
      match typed_row to_number r y, typed_rows to_number rows' years' with
      | Some t, Some df => Some (t :: df)
      | _, _ => None
      end
  | _, _ => Some []
  end.

(** The module-level loader: concatenate the files, drop the rows with a
    missing cell, then convert the year column.  The order of the last two
    steps is the order of the source (line 26, then line 35).

    The loader does not look at the amount columns.  When an amount field
    of a kept row does not read as a number, the column holds text and the
    frame is not a [DataFrame] of this model: that outcome is
    [TextAmountColumn], which is not an exception of the source. *)
Definition load (to_number : string -> option Q) (dfs : list (list CsvRow))
    : LoadError + DataFrame :=
  match dfs with
  | [] => inl NoObjectsToConcatenate
  | _ =>
      let sea_data := dropna (concat dfs) in
      match astype_int (to_numeric_coerce to_number (map csv_year sea_data))
      with
      | None => inl IntCastingNaNError
      | Some years =>
          match typed_rows to_number sea_data years with
          | None => inl TextAmountColumn
          | Some df => inr df
          end
      end
  end.

(** A reader of plain decimal numerals (an optional sign, digits, an
    optional fraction), rounded to float64.  pandas reads these numerals so,
    and more forms besides (exponents, infinities); the reader stands for
    [to_number] in the worked examples. *)
Definition digit_value (ch : ascii) : option Z :=
  let n := Z.of_N (N_of_ascii ch) in
  if ((48 <=? n) && (n <=? 57))%Z then Some (n - 48)%Z else None.

Fixpoint digits_value (acc : Z) (l : list ascii) : option Z :=
  match l with
  | [] => Some acc
  | ch :: t =>
      match digit_value ch with
      | Some d => digits_value (10 * acc + d) t
      | None => None
      end
  end.

Fixpoint split_point (l : list ascii) : list ascii * option (list ascii) :=
  match l with
  | [] => ([], None)
  | ch :: t =>
      if Ascii.eqb ch "."%char then ([], Some t)
      else let (a, b) := split_point t in (ch :: a, b)
  end.

Definition unsigned_decimal (l : list ascii) : option Q :=
  let (ip, fp) := split_point l in
  let fp := match fp with Some f => f | None => [] end in
  match ip ++ fp with
  | [] => None
  | ds =>
      option_map
        (fun n => Qmake n (Z.to_pos (10 ^ Z.of_nat (length fp))))
        (digits_value 0 ds)
  end.

Definition read_decimal (s : string) : option Q :=
  option_map round64
    match list_ascii_of_string s with
    | ch :: t =>
        if Ascii.eqb ch "-"%char then option_map Qopp (unsigned_decimal t)
        else if Ascii.eqb ch "+"%char then unsigned_decimal t
        else unsigned_decimal (ch :: t)
    | [] => None
    end.

(* ================================================================== *)
(** * Categories and settings (lines 47-56) *)

(** Insertion into a strictly increasing list, dropping duplicates. *)
Fixpoint insert_uniq {A : Type} (cmp : A -> A -> comparison)
    (a : A) (l : list A) : list A :=
  match l with
  | [] => [a]
  | h :: t =>
      match cmp a h with
      | Lt => a :: l
      | Eq => l
      | Gt => h :: insert_uniq cmp a t
      end
  end.

(** The sorted list of distinct values of a column. *)
Definition sorted_unique {A : Type} (cmp : A -> A -> comparison)
    (col : list A) : list A :=
  fold_right (insert_uniq cmp) [] col.

(** [col.cat.categories] after [astype("category")]: the distinct labels in
    increasing order (Python compares text by code point). *)
Definition categories (col : list string) : list string :=
  sorted_unique String.compare col.

Definition priority : list string :=
  ["Malaysia"; "Indonesia"; "Singapore"; "Thailand"]%string.

Definition isin (s : string) (l : list string) : bool :=
  existsb (String.eqb s) l.

Definition others (sea_data : DataFrame) : list string :=
  filter (fun c => negb (isin c priority))
         (categories (map country sea_data)).

Definition COUNTRY_CHOICES (sea_data : DataFrame) : list string :=
  priority ++ others sea_data.

(** [int(col.min())] and [int(col.max())]: on an empty column the minimum is
    NaN and [int] raises, which is [None] here. *)
Definition col_min (col : list Z) : option Z :=
  match col with
  | [] => None
  | h :: t => Some (fold_right Z.min h t)
  end.

Definition col_max (col : list Z) : option Z :=
  match col with
  | [] => None
  | h :: t => Some (fold_right Z.max h t)
  end.

Definition YEAR_MIN (sea_data : DataFrame) : option Z :=
  option_map (fun m => Z.min m 2015) (col_min (map year sea_data)).

Definition YEAR_MAX (sea_data : DataFrame) : option Z :=
  option_map (fun m => Z.max m 2022) (col_max (map year sea_data)).

(** The [value] of the country dropdown and of the year slider in the
    sidebar (lines 130-146). *)
Definition selected_country_default : string := "Malaysia"%string.

Definition selected_year_default (sea_data : DataFrame) : option Z :=
  YEAR_MAX sea_data.

(* ================================================================== *)
(** * Filtering *)

(** The mask [(sea_data["country"] == country) & (sea_data["year"] == year)]. *)
Definition selected (country_sel : string) (year_sel : Z)
    (r : TradeRecord) : bool :=
  String.eqb (country r) country_sel && Z.eqb (year r) year_sel.

(* ================================================================== *)
(** * KPIs (lines 482-490) *)

(** The four sums computed by [kpis], before they are formatted:
    [total_trade], [total_export], [total_import], [trade_balance]. *)
Definition kpis_totals_with (A : Arith) (sea_data : DataFrame)
    (country_sel : string) (year_sel : Z) : Q * Q * Q * Q :=
  let df := filter (selected country_sel year_sel) sea_data in
  let total_trade :=
    fsum A (map (fun r => fadd A (export_USD r) (import_USD r)) df) in
  let total_export := fsum A (map export_USD df) in
  let total_import := fsum A (map import_USD df) in
  let trade_balance :=
    fsum A (map (fun r => fsub A (export_USD r) (import_USD r)) df) in
  (total_trade, total_export, total_import, trade_balance).

(** The integers [int(v)] that [fmt] renders. *)
Definition kpis_ints_with (A : Arith) (sea_data : DataFrame)
    (country_sel : string) (year_sel : Z) : Z * Z * Z * Z :=
  let '(total_trade, total_export, total_import, trade_balance) :=
    kpis_totals_with A sea_data country_sel year_sel in
  (py_int total_trade, py_int total_export, py_int total_import,
   py_int trade_balance).

(** What [kpis] returns: the four texts. *)
Definition kpis_with (A : Arith) (sea_data : DataFrame)
    (country_sel : string) (year_sel : Z)
    : string * string * string * string :=
  let '(total_trade, total_export, total_import, trade_balance) :=
    kpis_totals_with A sea_data country_sel year_sel in
  (fmt total_trade, fmt total_export, fmt total_import, fmt trade_balance).

(** [kpis] in exact arithmetic. *)
Definition kpis_totals (sea_data : DataFrame) (country_sel : string)
    (year_sel : Z) : Q * Q * Q * Q :=
  kpis_totals_with exact_arith sea_data country_sel year_sel.

Definition kpis_ints (sea_data : DataFrame) (country_sel : string)
    (year_sel : Z) : Z * Z * Z * Z :=
  kpis_ints_with exact_arith sea_data country_sel year_sel.

Definition kpis (sea_data : DataFrame) (country_sel : string)
    (year_sel : Z) : string * string * string * string :=
  kpis_with exact_arith sea_data country_sel year_sel.

(* ================================================================== *)
(** * Filtered table (lines 500-516) *)

(** One entry of [tbl.to_dict("records")]. *)
Record TableRow : Type := mkTableRow {
  tbl_country : string;
  tbl_partner_name : string;
  tbl_year : Z;
  tbl_export_USD : Q;
  tbl_import_USD : Q;
  tbl_trade_value : Q
}.

Definition table_row (r : TradeRecord) : TableRow :=
  {| tbl_country := country r;
     tbl_partner_name := partner_name r;
     tbl_year := year r;
     tbl_export_USD := export_USD r;
     tbl_import_USD := import_USD r;
     tbl_trade_value := export_USD r + import_USD r |}.

Definition table_columns : list (string * string) :=
  [ ("Country", "country"); ("Trading Partner", "partner_name");
    ("Year", "year"); ("Export (USD)", "export_USD");
    ("Import (USD)", "import_USD");
    ("Total Trade (USD)", "trade_value") ]%string.

Definition update_table (sea_data : DataFrame) (country_sel : string)
    (year_sel : Z) : list TableRow * list (string * string) * string :=
  let filt := filter (selected country_sel year_sel) sea_data in
  let data := map table_row filt in
  let title :=
    ("Full International Trade Data for " ++ country_sel ++ " in "
       ++ py_str year_sel)%string in
  (data, table_columns, title).

(* ================================================================== *)
(** * Grouping and merging *)

(** The group keys that [groupby] emits for the rows [df], taken from the
    sorted list [levels] of candidate keys: every candidate when
    [observed] is false, and the candidates that occur in [df] when it is
    true.  The keys come out in the order of [levels] ([sort=True]). *)
Definition group_keys {K : Type} (eqb : K -> K -> bool) (observed : bool)
    (levels : list K) (key : TradeRecord -> K) (df : DataFrame) : list K :=
  filter (fun k => negb observed || existsb (fun r => eqb (key r) k) df)
         levels.

(** [groupby(key, as_index=False)[val].sum()]: one row per group key, with
    the sum of [val] over the rows of the group (0 for a group without
    rows). *)
Definition groupby_sum_with {K : Type} (A : Arith) (eqb : K -> K -> bool)
    (keys : list K) (key : TradeRecord -> K) (val : TradeRecord -> Q)
    (df : DataFrame) : list (K * Q) :=
  map (fun k => (k, gsum A (map val (filter (fun r => eqb (key r) k) df))))
      keys.

(** The grouped sum in exact arithmetic. *)
Definition groupby_sum {K : Type} (eqb : K -> K -> bool) (keys : list K)
    (key : TradeRecord -> K) (val : TradeRecord -> Q) (df : DataFrame)
    : list (K * Q) :=
  groupby_sum_with exact_arith eqb keys key val df.

(** [left.merge(right, on=key, how="left")] for two-column frames: every
    left row, in left order, paired with each right row of the same key,
    or with NaN ([None]) when the right frame has no such row. *)
Definition merge_left {K A B : Type} (eqb : K -> K -> bool)
    (left : list (K * A)) (right : list (K * B)) : list (K * A * option B) :=
  flat_map
    (fun l =>
       match filter (fun r => eqb (fst l) (fst r)) right with
       | [] => [(fst l, snd l, None)]
       | ms => map (fun r => (fst l, snd l, Some (snd r))) ms
       end)
    left.

(** Addition of two float columns, the second of which may hold NaN. *)
Definition add_nan_with (A : Arith) (a : Q) (b : option Q) : option Q :=
  option_map (fadd A a) b.

Definition add_nan (a : Q) (b : option Q) : option Q :=
  add_nan_with exact_arith a b.

(* ================================================================== *)
(** * Chart A: totals by country and year (lines 360-371) *)

(** One row of the frame handed to [px.bar].  [ta_country] is the value of
    the ordered categorical built on line 371: a label outside its category
    list becomes NaN ([None]). *)
Record TotalsRow : Type := mkTotalsRow {
  ta_country : option string;
  ta_year : Z;
  ta_trade_value : option Q;
  ta_import_USD : option Q
}.

Definition key_eqb (a b : string * Z) : bool :=
  String.eqb (fst a) (fst b) && Z.eqb (snd a) (snd b).

(** [pd.Categorical(values, categories=cats, ordered=True)] on one value. *)
Definition as_categorical (cats : list string) (s : string) : option string :=
  if isin s cats then Some s else None.

(** The category order attached to the [country] column on line 371 and
    passed to [px.bar] as [category_orders]. *)
Definition chart_a_category_order : list string :=
  ["Malaysia"; "Indonesia"; "Singapore"; "Thailand"]%string.

(** The frame [df] of [chart_a] after line 371.

    Line 364 aggregates by name with two group keys of which [country] is
    categorical.  When [groupby] emits observed keys only, the frame has
    one row per (country, year) combination that occurs in the selected
    rows.  Otherwise ([observed=False], as pandas 2.3 runs it) the
    aggregated values are laid out over every combination of a country
    label of the dataset and a year of the selected rows, while the key
    columns list the combinations that occur: when some combination does
    not occur the two lengths differ and line 364 raises [ValueError],
    which is [None] here. *)
Definition chart_a (A : Arith) (observed : bool) (sea_data : DataFrame)
    : option (list TotalsRow) :=
  let sel :=
    filter (fun r => isin (country r)
                       ["Malaysia"; "Indonesia"; "Singapore"; "Thailand"]%string)
           sea_data in
  let levels :=
    list_prod (categories (map country sea_data))
              (sorted_unique Z.compare (map year sel)) in
  let occurs :=
    fun k => existsb (fun r => key_eqb (country r, year r) k) sel in
  if negb observed && negb (forallb occurs levels) then None
  else
    let keys :=
      group_keys key_eqb observed levels (fun r => (country r, year r)) sel in
    let df :=
      groupby_sum_with A key_eqb keys (fun r => (country r, year r))
                       export_USD sel in
    let imp :=
      groupby_sum_with A key_eqb keys (fun r => (country r, year r))
                       import_USD sel in
    let df := merge_left key_eqb df imp in
    Some
      (map (fun row =>
              let '(k, trade_value, import_USD) := row in
              {| ta_country := as_categorical chart_a_category_order (fst k);
                 ta_year := snd k;
                 ta_trade_value := add_nan_with A trade_value import_USD;
                 ta_import_USD := import_USD |})
           df).

(* ================================================================== *)
(** * Chart F: top partners (lines 524-538), Chart G (lines 558-567) *)

Record PartnerRow : Type := mkPartnerRow {
  pr_partner_name : string;
  total_export : Q;
  total_import : option Q;
  total_trade : option Q
}.

(** Descending order of the sort key with NaN last
    ([ascending=False], [na_position="last"]). *)
Definition desc_nan_last (a b : option Q) : Prop :=
  match a, b with
  | Some x, Some y => y <= x
  | _, None => True
  | None, Some _ => False
  end.

Definition by_total_trade (r s : PartnerRow) : Prop :=
  desc_nan_last (total_trade r) (total_trade s).

(** What [DataFrame.sort_values("total_trade", ascending=False)] promises
    with its default [kind="quicksort"]: the rows come back rearranged in
    descending order of the key.  The order of rows with equal keys is not
    part of the promise (only [kind="mergesort"] and [kind="stable"] keep
    it), so the sort is a parameter of [update_top_partners] constrained by
    this contract. *)
Record SortValuesContract (sort_values : list PartnerRow -> list PartnerRow)
    : Prop := mkSortValuesContract {
  sort_values_perm : forall l, Permutation l (sort_values l);
  sort_values_sorted : forall l, StronglySorted by_total_trade (sort_values l)
}.

(** The frame [top] before it is sorted: the merge of the two grouped sums
    with the added [total_trade] column. *)
Definition top_unsorted (observed : bool) (sea_data : DataFrame)
    (country_sel : string) (year_sel : Z) : list PartnerRow :=
  let filt := filter (selected country_sel year_sel) sea_data in
  let keys :=
    group_keys String.eqb observed (categories (map partner_name sea_data))
               partner_name filt in
  let top_export := groupby_sum String.eqb keys partner_name export_USD filt in
  let top_import := groupby_sum String.eqb keys partner_name import_USD filt in
  let top := merge_left String.eqb top_export top_import in
  map (fun row =>
         let '(p, te, ti) := row in
         {| pr_partner_name := p; total_export := te; total_import := ti;
            total_trade := add_nan te ti |})
      top.

Definition update_top_partners
    (sort_values : list PartnerRow -> list PartnerRow) (observed : bool)
    (sea_data : DataFrame) (country_sel : string) (year_sel : Z)
    : list PartnerRow :=
  firstn 10 (sort_values (top_unsorted observed sea_data country_sel year_sel)).

(** The frame [partner_trade] of [chart_g]: one aggregation for both
    sums, no merge. *)
Definition chart_g (observed : bool) (sea_data : DataFrame)
    (country_sel : string) (year_sel : Z) : list PartnerRow :=
  let filtered_data := filter (selected country_sel year_sel) sea_data in
  let keys :=
    group_keys String.eqb observed (categories (map partner_name sea_data))
               partner_name filtered_data in
  map (fun p =>
         let rows :=
           filter (fun r => String.eqb (partner_name r) p) filtered_data in
         let te := Qsum (map export_USD rows) in
         let ti := Qsum (map import_USD rows) in
         {| pr_partner_name := p; total_export := te; total_import := Some ti;
            total_trade := Some (te + ti) |})
      keys.

(** A sort that meets the contract, by insertion from the right.  The
    decidable order on keys: *)
Definition desc_nan_last_b (a b : option Q) : bool :=
  match a, b with
  | Some x, Some y => Qle_bool y x
  | _, None => true
  | None, Some _ => false
  end.

(** [x] goes in front of the first row that it may precede. *)
Fixpoint insert_before (x : PartnerRow) (l : list PartnerRow)
    : list PartnerRow :=
  match l with
  | [] => [x]
  | h :: t =>
      if desc_nan_last_b (total_trade x) (total_trade h) then x :: l
      else h :: insert_before x t
  end.

(** Keeps rows of equal key in their original order. *)
Definition sort_values_stable (l : list PartnerRow) : list PartnerRow :=
  fold_right insert_before [] l.

(* ================================================================== *)
(** * Chart D: scatter with OLS line (lines 447-472) *)

(** [Series.min()] and [Series.max()] of a float column; the callers below
    only use them on a column with at least two values. *)
Definition Qmin_list (l : list Q) : Q :=
  match l with
  | [] => 0
  | h :: t => fold_right Qmin h t
  end.

Definition Qmax_list (l : list Q) : Q :=
  match l with
  | [] => 0
  | h :: t => fold_right Qmax h t
  end.

(** [np.linspace(start, stop, num)]: [num] points, the [i]-th of which is
    [start + i * (stop - start) / (num - 1)]. *)
Definition linspace (start stop : Q) (num : nat) : list Q :=
  let step := (stop - start) / inject_Z (Z.of_nat (num - 1)) in
  map (fun i => start + inject_Z (Z.of_nat i) * step) (seq 0 num).

(** The sums of the normal equations of a straight-line fit. *)
Definition Sxy (x y : list Q) : Q :=
  Qsum (map (fun p => fst p * snd p) (combine x y)).

(** [np.polyfit(x, y, 1)] in exact arithmetic.  numpy returns the
    coefficients [(b1, b0)] of the line [y = b1 * x + b0] that minimises
    the squared error; it computes them in float64 with a least-squares
    solver, so the coefficients of the code are these up to rounding.  Over
    the rationals the minimiser solves the normal equations
      [b1 * Sxx + b0 * Sx = Sxy] and [b1 * Sx + b0 * n = Sy],
    and it is determined by the data exactly when their determinant
    [n * Sxx - Sx * Sx] is not zero, that is when the [x] are not all
    equal.

    When the determinant is zero every [x] is the same value [a].  numpy
    scales the two columns [x] and [1] of the system to unit length, drops
    the singular value that is zero, warns of the rank deficiency
    ([RankWarning]) and returns the solution of least norm of the scaled
    system: the line of slope [mean(y) / (2 * a)] and intercept
    [mean(y) / 2].  When [a] is 0 the scaling divides zero by zero and the
    solver raises [LinAlgError]: that is [None] here. *)
Definition polyfit1 (x y : list Q) : option (Q * Q) :=
  let n := inject_Z (Z.of_nat (length x)) in
  let Sx := Qsum x in
  let Sy := Qsum y in
  let Sxx := Sxy x x in
  let det := n * Sxx - Sx * Sx in
  if Qeq_bool det 0 then
    let a := Sx / n in
    if Qeq_bool a 0 then None
    else Some (Sy / n / (2 * a), Sy / n / 2)
  else
    let b1 := (n * Sxy x y - Sx * Sy) / det in
    let b0 := (Sy - b1 * Sx) / n in
    Some (b1, b0).

(** The trace "OLS fit": coefficients and the sampled line. *)
Record OlsTrace : Type := mkOlsTrace {
  b1 : Q;
  b0 : Q;
  xs : list Q;
  ys : list Q
}.

(** The data of the figure of [chart_d]: the markers and, when it was
    added, the fit line. *)
Record ScatterFigure : Type := mkScatterFigure {
  markers : list (Q * Q);
  ols_fit : option OlsTrace
}.

(** [chart_d].  The result is [None] when [np.polyfit] raises; otherwise it
    is the figure, whose fit trace is absent when fewer than two rows are
    selected. *)
Definition chart_d (sea_data : DataFrame) (country_sel : string)
    (year_sel : Z) : option ScatterFigure :=
  let df := filter (selected country_sel year_sel) sea_data in
  let fig_markers := map (fun r => (export_USD r, import_USD r)) df in
  if (2 <=? length df)%nat then
    let x := map export_USD df in
    let y := map import_USD df in
    match polyfit1 x y with
    | None => None
    | Some (b1, b0) =>
        let xs := linspace (Qmin_list x) (Qmax_list x) 100 in
        let ys := map (fun v => b1 * v + b0) xs in
        Some {| markers := fig_markers;
                ols_fit := Some {| b1 := b1; b0 := b0; xs := xs; ys := ys |} |}
    end
  else Some {| markers := fig_markers; ols_fit := None |}.

(** ** The words of the specification for the fit

    The mean, covariance and variance of the closed form
    [slope = cov(x,y)/var(x)], [intercept = mean(y) - slope*mean(x)];
    they are compared with [polyfit1] below. *)
Definition mean (l : list Q) : Q := Qsum l / inject_Z (Z.of_nat (length l)).

Definition cov (x y : list Q) : Q :=
  mean (map (fun p => (fst p - mean x) * (snd p - mean y)) (combine x y)).

Definition var (x : list Q) : Q := cov x x.


(** ** The words of the specification for the totals

    The naive full scan of the cross-check: add export and import record by
    record over the records of one (country, year) pair. *)
Definition naive_scan (A : Arith) (sea_data : DataFrame) (c : string)
    (y : Z) : Q :=
  fold_left
    (fun acc r =>
       if String.eqb (country r) c && Z.eqb (year r) y
       then fadd A acc (fadd A (export_USD r) (import_USD r)) else acc)
    sea_data 0.

(* ================================================================== *)
(** * Sidebar: options, slider, toggle (lines 130-146, 333-353) *)

(** [range(lo, hi)]: the integers from [lo] up to, not including, [hi]. *)
Definition py_range (lo hi : Z) : list Z :=
  map (fun i => (lo + Z.of_nat i)%Z) (seq 0 (Z.to_nat (hi - lo))).

(** [options] of the country dropdown: a label and a value per choice. *)
Definition dropdown_options (sea_data : DataFrame) : list (string * string) :=
  map (fun c => (c, c)) (COUNTRY_CHOICES sea_data).

(** [marks] of the year slider: [{y: str(y) for y in range(YEAR_MIN,
    YEAR_MAX + 1)}], in key order.  There are no marks when the settings
    could not be computed. *)
Definition slider_marks (sea_data : DataFrame) : option (list (Z * string)) :=
  match YEAR_MIN sea_data, YEAR_MAX sea_data with
  | Some lo, Some hi =>
      Some (map (fun y => (y, py_str y)) (py_range lo (hi + 1)))
  | _, _ => None
  end.

Definition show_year (y : Z) : string :=
  ("Selected Year: " ++ py_str y)%string.

(** Truth value of [n_clicks]: [None] before the first click and 0 are
    false. *)
Definition truthy (n : option Z) : bool :=
  match n with
  | Some k => negb (k =? 0)%Z
  | None => false
  end.

(** [toggle_sidebar]: the new [is_open] of the sidebar, the class of its
    column and the width of the main column. *)
Definition toggle_sidebar (n : option Z) (is_open : bool)
    : bool * string * Z :=
  if truthy n then
    let new_state := negb is_open in
    if new_state then (true, EmptyString, 9%Z)
    else (false, "d-none"%string, 12%Z)
  else (is_open, "d-none"%string, 12%Z).

(** The three properties as the layout declares them (lines 155, 309,
    316). *)
Definition sidebar_layout : bool * string * Z :=
  (false, "d-none"%string, 12%Z).

(** The three properties after the page has loaded and the button has been
    clicked [k] times: the callback runs once with [n_clicks = None] and
    then once per click with the count of clicks, each time reading
    [is_open] as the previous run left it. *)
Fixpoint after_clicks (k : nat) : bool * string * Z :=
  match k with
  | O => toggle_sidebar None (fst (fst sidebar_layout))
  | S j =>
      toggle_sidebar (Some (Z.of_nat (S j))) (fst (fst (after_clicks j)))
  end.

(* ================================================================== *)
(** * Chart B: balance by year and country (lines 393-396) *)




(* ================================================================== *)
(** * Chart C: export and import by year (lines 425-430) *)

(** One row of [plot_df]; the two line traces of the figure take their
    [x] from [tr_year] and their [y] from the two sums. *)
Record TrendRow : Type := mkTrendRow {
  tr_year : Z;
  tr_import_USD : Q;
  tr_export_USD : Q
}.

(** [plot_df] of [chart_c].  The key [year] is an integer column, so the
    groups are the years that occur in the selected rows, in increasing
    order, whatever the default of [observed]. *)
Definition chart_c (sea_data : DataFrame) (country_sel : string)
    : list TrendRow :=
  let sel :=
    filter (fun r => String.eqb (country r) country_sel) sea_data in
  map (fun y =>
         let rows := filter (fun r => Z.eqb (year r) y) sel in
         {| tr_year := y;
            tr_import_USD := Qsum (map import_USD rows);
            tr_export_USD := Qsum (map export_USD rows) |})
      (sorted_unique Z.compare (map year sel)).

(* ================================================================== *)
(** * Notions used in the statements *)



(** The order of labels: text compared by code point. *)
Definition string_lt (a b : string) : Prop := String.compare a b = Lt.

(** The order of group keys [(country, year)]: label first, year second. *)
Definition key_lt (a b : string * Z) : Prop :=
  String.compare (fst a) (fst b) = Lt \/
  (fst a = fst b /\ (snd a < snd b)%Z).

(** Reading a text shown by [fmt] back: the separators are taken out and
    the rest is read as a decimal integer. *)
Definition not_comma (ch : ascii) : bool := negb (Ascii.eqb ch ","%char).

Definition strip_commas (s : string) : string :=
  string_of_list_ascii (filter not_comma (list_ascii_of_string s)).

Definition read_thousands (s : string) : option Z :=
  option_map Z.of_int (NilZero.int_of_string (strip_commas s)).

(** A NaN of a sum column counted as 0. *)
Definition nan_to_zero (o : option Q) : Q :=
  match o with Some v => v | None => 0 end.

(* ================================================================== *)
(** * Example data *)

(** A record with the given labels, year and amounts; the two code columns
    hold a fixed code and the balance is export minus import. *)
Definition trade (c p : string) (y : Z) (e i : Q) : TradeRecord :=
  {| country := c; country_code := "CC"; partner_name := p;
     partner_name_code := "PC"; year := y; export_USD := e;
     import_USD := i; trade_balance_USD := e - i |}.

(** The two-record dataset of the examples of the specification. *)
Definition example_data : DataFrame :=
  [ trade "Malaysia" "PartnerA" 2020 100 50;
    trade "Malaysia" "PartnerB" 2020 200 80 ]%string.

(** One record with half a dollar of export and half a dollar of import. *)
Definition half_dollar_data : DataFrame :=
  [ trade "Malaysia" "PartnerA" 2020 (1 # 2) (1 # 2) ]%string.

(** A record whose amounts are the float64 values that [read_csv] reads
    from the decimal numerals [e], [i] and [e - i]. *)
Definition float_trade (c p : string) (y : Z) (e i : Q) : TradeRecord :=
  {| country := c; country_code := "CC"; partner_name := p;
     partner_name_code := "PC"; year := y; export_USD := round64 e;
     import_USD := round64 i; trade_balance_USD := round64 (e - i) |}.

(** Two records with the amounts 0.6 and 1.3, and 1.4 and 0.7. *)
Definition cents_data : DataFrame :=
  [ float_trade "Malaysia" "PartnerA" 2020 (6 # 10) (13 # 10);
    float_trade "Malaysia" "PartnerB" 2020 (14 # 10) (7 # 10) ]%string.

(** A dataset that lists Malaysia before Indonesia, and one with a single
    record of a country outside the four of [chart_a]. *)
Definition two_countries : DataFrame :=
  [ trade "Malaysia" "PartnerA" 2020 100 50;
    trade "Indonesia" "PartnerA" 2020 30 20 ]%string.

Definition vietnam_only : DataFrame :=
  [ trade "Vietnam" "PartnerA" 2020 7 5 ]%string.

(** A dataset whose last year is after 2022. *)
Definition late_data : DataFrame :=
  [ trade "Malaysia" "PartnerA" 2030 100 50 ]%string.


Definition zero_export_data : DataFrame :=
  [ trade "Malaysia" "PartnerA" 2020 0 50;
    trade "Malaysia" "PartnerB" 2020 0 80 ]%string.


(** One file of two rows without a missing field, the second with a year
    that is neither a number nor one of the texts read as missing. *)
Definition text_year_files : list (list CsvRow) :=
  [ [ mkCsvRow "Malaysia" "MYS" "PartnerA" "PTA" "2020" "100" "50" "50";
      mkCsvRow "Malaysia" "MYS" "PartnerB" "PTB" "abc" "200" "80" "120" ]
  ]%string.



(* ================================================================== *)
(** * Properties *)

(** ** KPIs *)

Lemma Qsum_map_plus {A} (f g : A -> Q) l :
  Qsum (map (fun r => f r + g r) l) == Qsum (map f l) + Qsum (map g l).
Proof.
  induction l as [|a l IH]; simpl.
  - ring.
  - rewrite IH. ring.
Qed.

Lemma Qsum_map_minus {A} (f g : A -> Q) l :
  Qsum (map (fun r => f r - g r) l) == Qsum (map f l) - Qsum (map g l).
Proof.
  induction l as [|a l IH]; simpl.
  - ring.
  - rewrite IH. ring.
Qed.


Lemma py_int_whole q z : q == inject_Z z -> py_int q = z.
Proof.
  unfold Qeq, py_int. simpl. intros H.
  rewrite Z.mul_1_r in H. rewrite H.
  apply Z.quot_mul. discriminate.
Qed.

Lemma whole_Qsum {A} (f : A -> Q) l :
  (forall r, In r l -> whole (f r)) -> whole (Qsum (map f l)).
Proof.
  induction l as [|a l IH]; simpl; intros H.
  - exists 0%Z. reflexivity.
  - destruct (H a (or_introl eq_refl)) as [za Ha].
    destruct IH as [zl Hl]; [intros; apply H; now right|].
    exists (za + zl)%Z. rewrite Ha, Hl, inject_Z_plus. reflexivity.
Qed.

Lemma Qsum_map_ext {A} (f g : A -> Q) l :
  (forall a, In a l -> f a == g a) -> Qsum (map f l) == Qsum (map g l).
Proof.
  induction l as [|a l IH]; simpl; intros H; [reflexivity|].
  rewrite (H a (or_introl eq_refl)), IH; [reflexivity|].
  intros x Hx. apply H. now right.
Qed.

Lemma whole_plus a b : whole a -> whole b -> whole (a + b).
Proof.
  intros [za Ha] [zb Hb]. exists (za + zb)%Z.
  now rewrite Ha, Hb, inject_Z_plus.
Qed.

Lemma whole_minus a b : whole a -> whole b -> whole (a - b).
Proof.
  intros [za Ha] [zb Hb]. exists (za - zb)%Z.
  rewrite Ha, Hb. unfold Z.sub, Qminus.
  now rewrite inject_Z_plus, inject_Z_opp.
Qed.

Lemma whole_eq a b : a == b -> whole b -> whole a.
Proof. intros E [z Hz]. exists z. now rewrite E. Qed.

Lemma Qsum_abs_nonneg l : 0 <= Qsum (map Qabs l).
Proof.
  induction l as [|a l IH]; simpl; [apply Qle_refl|].
  pose proof (Qabs_nonneg a). lra.
Qed.

Lemma Qabs_Qsum l : Qabs (Qsum l) <= Qsum (map Qabs l).
Proof.
  induction l as [|a l IH]; simpl; [apply Qle_refl|].
  eapply Qle_trans; [apply Qabs_triangle|]. lra.
Qed.

Lemma Qabs_minus_le a b : Qabs (a - b) <= Qabs a + Qabs b.
Proof.
  unfold Qminus. eapply Qle_trans; [apply Qabs_triangle|].
  rewrite Qabs_opp. apply Qle_refl.
Qed.

(** The sum of a non-negative column over some of the rows is at most the
    sum over all of them. *)
Lemma Qsum_filter_le {A} (f : A -> Q) (p : A -> bool) l :
  (forall r, 0 <= f r) ->
  Qsum (map f (filter p l)) <= Qsum (map f l).
Proof.
  intros Hf. induction l as [|a l IH]; simpl; [apply Qle_refl|].
  pose proof (Hf a). destruct (p a); simpl; lra.
Qed.

(** ** Float arithmetic *)

Lemma Qred_whole q z : q == inject_Z z -> Qred q = inject_Z z.
Proof.
  intros H.
  assert (E : Qred q == inject_Z z) by now rewrite Qred_correct.
  pose proof (gcd_Qred q) as G.
  destruct (Qred q) as [n d]. unfold Qeq in E. simpl in E, G.
  rewrite Z.mul_1_r in E. subst n.
  rewrite Z.gcd_comm, (Z.mul_comm z), Z.gcd_mul_diag_l in G by lia.
  assert (d = 1%positive) by lia. subst d.
  unfold inject_Z. now rewrite Z.mul_1_r.
Qed.

Lemma round_half_even_exact n d :
  (0 < d)%Z -> round_half_even (n * d) d = n.
Proof.
  intros Hd. unfold round_half_even.
  rewrite Z.div_mul, Z.mod_mul by lia.
  assert (E : (2 * 0 ?= d)%Z = Lt) by (apply Z.compare_lt_iff; lia).
  now rewrite E.
Qed.

(** A whole number of magnitude at most 2^53 is a float64: rounding
    returns it. *)
Lemma round64_whole q z :
  q == inject_Z z -> (Z.abs z <= 2 ^ 53)%Z -> round64 q == inject_Z z.
Proof.
  intros Hq Hz. unfold round64. rewrite (Qred_whole q z Hq).
  cbn [Qnum Qden inject_Z].
  destruct (Z.eqb_spec z 0) as [->|Hne]; [reflexivity|].
  rewrite Qred_correct.
  change (Z.log2 1) with 0%Z. rewrite Z.sub_0_r.
  set (a := Z.abs z). assert (Ha : (0 < a)%Z) by (unfold a; lia).
  pose proof (Z.log2_spec a Ha) as [Hlo Hhi].
  assert (HL' : (Z.log2 a <= 53)%Z).
  { destruct (Z.le_gt_cases (Z.log2 a) 53) as [H|H]; [exact H|exfalso].
    assert (2 ^ 54 <= 2 ^ Z.log2 a)%Z by (apply Z.pow_le_mono_r; lia).
    assert (2 ^ 53 < 2 ^ 54)%Z by (apply Z.pow_lt_mono_r; lia).
    unfold a in *. lia. }
  pose proof (Z.log2_nonneg a) as HL0.
  set (L := Z.log2 a) in *.
  set (e1 := (L - 52)%Z).
  assert (Hz' : z = (Z.sgn z * a)%Z) by (unfold a; lia).
  destruct (Z.le_gt_cases e1 0) as [He|He].
  - (* the scaled value is a whole number *)
    assert (M0 : Z.max 0 (- e1) = (- e1)%Z) by lia.
    assert (M1' : Z.max 0 e1 = 0%Z) by lia.
    rewrite M0, M1'. rewrite Z.pow_0_r, !Z.mul_1_r.
    assert (Hge : (2 ^ 52 <= a * 2 ^ (- e1))%Z).
    { replace (2 ^ 52)%Z with (2 ^ L * 2 ^ (- e1))%Z.
      - apply Z.mul_le_mono_nonneg_r; [apply Z.pow_nonneg; lia|exact Hlo].
      - rewrite <- Z.pow_add_r by lia. f_equal. unfold e1. lia. }
    destruct (Z.ltb_spec (a * 2 ^ (- e1)) (2 ^ 52)) as [Hlt|_]; [lia|].
    assert (Me : Z.max e1 (-1074) = e1) by (unfold e1; lia).
    rewrite Me, M0, M1', Z.pow_0_r, !Z.mul_1_r.
    replace (round_half_even (a * 2 ^ (- e1)) 1) with (a * 2 ^ (- e1))%Z
      by (rewrite <- (Z.mul_1_r (a * 2 ^ (- e1))) at 2;
          now rewrite round_half_even_exact).
    destruct (Z.leb_spec 0 e1) as [H0|H0].
    + assert (e1 = 0%Z) by lia. replace (- e1)%Z with 0%Z by lia.
      replace e1 with 0%Z by lia.
      rewrite Z.pow_0_r, !Z.mul_1_r. now rewrite <- Hz'.
    + unfold Qeq. cbn [Qnum Qden inject_Z].
      rewrite Z2Pos.id by (apply Z.pow_pos_nonneg; lia).
      rewrite Z.mul_1_r. rewrite Hz' at 2. ring.
  - (* the magnitude is 2^53 itself *)
    assert (HLe : L = 53%Z) by (unfold e1 in He; lia).
    assert (Ea : a = (2 ^ 53)%Z).
    { rewrite HLe in Hlo. unfold a in *. lia. }
    assert (He1 : e1 = 1%Z) by (unfold e1; lia).
    rewrite He1. rewrite Ea.
    change (Z.max 0 (- (1))) with 0%Z. change (Z.max 0 1) with 1%Z.
    vm_compute (2 ^ 53 * 2 ^ 0 <? 2 ^ 52 * (1 * 2 ^ 1))%Z. cbv iota.
    change (Z.max 1 (-1074)) with 1%Z.
    change (Z.max 0 (- (1))) with 0%Z. change (Z.max 0 1) with 1%Z.
    vm_compute (round_half_even (2 ^ 53 * 2 ^ 0) (1 * 2 ^ 1)).
    change (0 <=? 1)%Z with true. cbv iota.
    rewrite Hz' at 2. rewrite Ea.
    replace (Z.sgn z * 4503599627370496 * 2 ^ 1)%Z with (Z.sgn z * 2 ^ 53)%Z
      by (vm_compute (2 ^ 53)%Z; vm_compute (2 ^ 1)%Z; lia).
    reflexivity.
Qed.

Lemma round64_exact q : whole q -> Qabs q <= two53 -> round64 q == q.
Proof.
  intros [z Hz] Hb. rewrite Hz at 2. apply round64_whole; [exact Hz|].
  rewrite Hz in Hb. unfold two53 in Hb.
  change (Qabs (inject_Z z)) with (inject_Z (Z.abs z)) in Hb.
  now rewrite <- Zle_Qle in Hb.
Qed.

Lemma sum_left_whole l :
  forall acc, whole acc -> (forall v, In v l -> whole v) ->
  Qabs acc + Qsum (map Qabs l) <= two53 ->
  fold_left (fun acc v => round64 (acc + v)) l acc == acc + Qsum l.
Proof.
  induction l as [|v l IH]; intros acc Hacc Hl Hb; simpl.
  - ring.
  - simpl in Hb.
    assert (Hv : whole v) by (apply Hl; now left).
    pose proof (Qabs_triangle acc v) as Ht.
    pose proof (Qsum_abs_nonneg l) as Hn.
    assert (E : round64 (acc + v) == acc + v).
    { apply round64_exact; [now apply whole_plus|lra]. }
    rewrite IH.
    + rewrite E. ring.
    + apply (whole_eq _ _ E). now apply whole_plus.
    + intros w Hw. apply Hl. now right.
    + rewrite E. lra.
Qed.

Lemma exact_arith_contract : ArithContract exact_arith.
Proof. split; intros; reflexivity. Qed.

(** Float64 arithmetic meets the contract. *)
Lemma binary64_contract : ArithContract binary64.
Proof.
  split; cbn [fadd fsub fsum gsum binary64].
  - intros a b Ha Hb Hbound. apply round64_exact; [now apply whole_plus|].
    pose proof (Qabs_triangle a b). lra.
  - intros a b Ha Hb Hbound. apply round64_exact; [now apply whole_minus|].
    pose proof (Qabs_minus_le a b). lra.
  - intros l Hl Hbound. unfold sum_left. rewrite sum_left_whole.
    + ring.
    + exists 0%Z. reflexivity.
    + exact Hl.
    + change (Qabs 0) with 0. lra.
  - intros l Hl Hbound. unfold sum_left. rewrite sum_left_whole.
    + ring.
    + exists 0%Z. reflexivity.
    + exact Hl.
    + change (Qabs 0) with 0. lra.
Qed.

(** Under the contract, the sum of a column of whole numbers and the sum
    of two such columns added element by element are exact. *)
Lemma fsum_column A (f : TradeRecord -> Q) df :
  ArithContract A ->
  (forall r, In r df -> whole (f r)) ->
  Qsum (map (fun r => Qabs (f r)) df) <= two53 ->
  fsum A (map f df) == Qsum (map f df) /\
  gsum A (map f df) == Qsum (map f df).
Proof.
  intros HA Hw Hb.
  assert (Hl : forall v, In v (map f df) -> whole v).
  { intros v Hv. apply in_map_iff in Hv. destruct Hv as (r & <- & Hr).
    now apply Hw. }
  assert (Hb' : Qsum (map Qabs (map f df)) <= two53) by now rewrite map_map.
  split; [now apply fsum_whole|now apply gsum_whole].
Qed.

Lemma amounts_bound (df : DataFrame) :
  Qsum (map (fun r => Qabs (export_USD r) + Qabs (import_USD r)) df) <= two53 ->
  Qsum (map (fun r => Qabs (export_USD r)) df) <= two53 /\
  Qsum (map (fun r => Qabs (import_USD r)) df) <= two53 /\
  (forall r, In r df -> Qabs (export_USD r) + Qabs (import_USD r) <= two53).
Proof.
  intros Hb. rewrite Qsum_map_plus in Hb.
  assert (He : 0 <= Qsum (map (fun r => Qabs (export_USD r)) df)).
  { rewrite <- map_map. apply Qsum_abs_nonneg. }
  assert (Hi : 0 <= Qsum (map (fun r => Qabs (import_USD r)) df)).
  { rewrite <- map_map. apply Qsum_abs_nonneg. }
  split; [lra|]. split; [lra|].
  clear He Hi. induction df as [|a df IH]; [intros r []|].
  simpl in Hb.
  assert (He : 0 <= Qsum (map (fun r => Qabs (export_USD r)) df)).
  { rewrite <- map_map. apply Qsum_abs_nonneg. }
  assert (Hi : 0 <= Qsum (map (fun r => Qabs (import_USD r)) df)).
  { rewrite <- map_map. apply Qsum_abs_nonneg. }
  pose proof (Qabs_nonneg (export_USD a)).
  pose proof (Qabs_nonneg (import_USD a)).
  intros r [<-|Hr]; [lra|]. apply IH; [lra|exact Hr].
Qed.

Lemma fsum_columns_added A (op : Q -> Q -> Q) (ex : Q -> Q -> Q) df :
  ArithContract A ->
  (forall a b, whole a -> whole b -> Qabs a + Qabs b <= two53 ->
     op a b == ex a b) ->
  (forall a b, whole a -> whole b -> whole (ex a b)) ->
  (forall a b, Qabs (ex a b) <= Qabs a + Qabs b) ->
  (forall r, In r df -> whole (export_USD r) /\ whole (import_USD r)) ->
  Qsum (map (fun r => Qabs (export_USD r) + Qabs (import_USD r)) df) <= two53 ->
  fsum A (map (fun r => op (export_USD r) (import_USD r)) df) ==
  Qsum (map (fun r => ex (export_USD r) (import_USD r)) df).
Proof.
  intros HA Hop Hex Habs Hw Hb.
  destruct (amounts_bound df Hb) as (_ & _ & Hrow).
  assert (E : forall r, In r df ->
            op (export_USD r) (import_USD r) ==
            ex (export_USD r) (import_USD r)).
  { intros r Hr. destruct (Hw r Hr). apply Hop; auto. }
  rewrite (fsum_whole A HA).
  - now apply Qsum_map_ext.
  - intros v Hv. apply in_map_iff in Hv. destruct Hv as (r & <- & Hr).
    apply (whole_eq _ _ (E r Hr)). destruct (Hw r Hr). now apply Hex.
  - rewrite map_map. eapply Qle_trans; [|exact Hb].
    clear Hb Hrow. induction df as [|a df IH]; simpl; [apply Qle_refl|].
    assert (Ea := E a (or_introl eq_refl)). rewrite Ea.
    pose proof (Habs (export_USD a) (import_USD a)).
    assert (Qsum (map (fun x => Qabs (op (export_USD x) (import_USD x))) df)
            <= Qsum (map (fun r => Qabs (export_USD r) + Qabs (import_USD r))
                         df)).
    { apply IH; intros; [apply Hw|apply E]; now right. }
    lra.
Qed.

(** C1 (as amended). When the export and import values of the records of
    the selected country and year are whole numbers whose absolute values
    add up to at most 2^53, the four values that [kpis] returns are the
    texts of four integers with
    [total_trade = total_export + total_import] and
    [trade_balance = total_export - total_import], where [total_export] and
    [total_import] are the sums of [export_USD] and of [import_USD] over
    those records.  This holds in every arithmetic that is exact on such
    whole numbers, as float64 is. *)
Theorem kpis_identities (A : Arith) (sea_data : DataFrame) (c : string)
    (y : Z) :
  ArithContract A ->
  let df := filter (selected c y) sea_data in
  (forall r, In r df -> whole (export_USD r) /\ whole (import_USD r)) ->
  Qsum (map (fun r => Qabs (export_USD r) + Qabs (import_USD r)) df)
    <= two53 ->
  exists total_trade total_export total_import trade_balance : Z,
    kpis_ints_with A sea_data c y =
      (total_trade, total_export, total_import, trade_balance) /\
    kpis_with A sea_data c y =
      (format_thousands total_trade, format_thousands total_export,
       format_thousands total_import, format_thousands trade_balance) /\
    inject_Z total_export == Qsum (map export_USD df) /\
    inject_Z total_import == Qsum (map import_USD df) /\
    total_trade = (total_export + total_import)%Z /\
    trade_balance = (total_export - total_import)%Z.
Proof.
  intros HA df Hw Hb.
  destruct (amounts_bound df Hb) as (Hbe & Hbi & _).
  destruct (fsum_column A export_USD df HA) as [Ee _];
    [intros r Hr; apply Hw, Hr|exact Hbe|].
  destruct (fsum_column A import_USD df HA) as [Ei _];
    [intros r Hr; apply Hw, Hr|exact Hbi|].
  pose proof (fsum_columns_added A (fadd A) Qplus df HA (fadd_whole A HA)
                whole_plus Qabs_triangle Hw Hb) as Et.
  pose proof (fsum_columns_added A (fsub A) Qminus df HA (fsub_whole A HA)
                whole_minus Qabs_minus_le Hw Hb) as Eb.
  destruct (whole_Qsum export_USD df) as [ze He];
    [intros r Hr; apply Hw, Hr|].
  destruct (whole_Qsum import_USD df) as [zi Hi];
    [intros r Hr; apply Hw, Hr|].
  exists (ze + zi)%Z, ze, zi, (ze - zi)%Z.
  assert (Pe : py_int (fsum A (map export_USD df)) = ze)
    by (apply py_int_whole; now rewrite Ee).
  assert (Pi : py_int (fsum A (map import_USD df)) = zi)
    by (apply py_int_whole; now rewrite Ei).
  assert (Pt : py_int (fsum A (map (fun r => fadd A (export_USD r)
                                              (import_USD r)) df))
               = (ze + zi)%Z).
  { apply py_int_whole. rewrite Et, Qsum_map_plus, He, Hi, inject_Z_plus.
    reflexivity. }
  assert (Pb : py_int (fsum A (map (fun r => fsub A (export_USD r)
                                              (import_USD r)) df))
               = (ze - zi)%Z).
  { apply py_int_whole. rewrite Eb, Qsum_map_minus, He, Hi.
    unfold Z.sub. rewrite inject_Z_plus, inject_Z_opp. reflexivity. }
  unfold kpis_ints_with, kpis_with, kpis_totals_with, fmt. fold df.
  rewrite Pe, Pi, Pt, Pb.
  split; [reflexivity|]. split; [reflexivity|].
  split; [now symmetry|]. split; [now symmetry|]. split; reflexivity.
Qed.

(** On the example of the specification every amount is a whole number,
    and in float64 arithmetic [kpis] shows 430, 300, 130 and 170. *)
Lemma kpis_identities_witness :
  ArithContract binary64 /\
  (forall r, In r (filter (selected "Malaysia" 2020) example_data) ->
     whole (export_USD r) /\ whole (import_USD r)) /\
  kpis_with binary64 example_data "Malaysia" 2020 =
    ("430", "300", "130", "170")%string /\
  exists tt te ti tb,
    kpis_ints_with binary64 example_data "Malaysia" 2020 = (tt, te, ti, tb) /\
    tt = (te + ti)%Z /\ tb = (te - ti)%Z.
Proof.
  assert (Hwhole :
    forall r, In r (filter (selected "Malaysia" 2020) example_data) ->
      whole (export_USD r) /\ whole (import_USD r)).
  { simpl. intros r [<-|[<-|[]]]; split; simpl.
    - exists 100%Z. reflexivity.
    - exists 50%Z. reflexivity.
    - exists 200%Z. reflexivity.
    - exists 80%Z. reflexivity. }
  assert (Hbound :
    Qsum (map (fun r => Qabs (export_USD r) + Qabs (import_USD r))
              (filter (selected "Malaysia" 2020) example_data)) <= two53).
  { vm_compute. discriminate. }
  destruct (kpis_identities binary64 example_data "Malaysia"%string 2020%Z
              binary64_contract Hwhole Hbound)
    as (tt & te & ti & tb & Hints & _ & _ & _ & Ht & Hb).
  split; [exact binary64_contract|]. split; [exact Hwhole|].
  split; [vm_compute; reflexivity|].
  exists tt, te, ti, tb. split; [exact Hints|]. split; assumption.
Defined.

(** C1 (as stated) fails for what [kpis] returns, in float64 arithmetic.
    For one record with export 0.5 and import 0.5 it returns "1", "0", "0",
    "0", and 1 is not 0 + 0: each sum is truncated on its own.  For two
    records with the amounts 0.6 and 1.3, and 1.4 and 0.7, it returns "3",
    "2", "2", "0", and 3 is not 2 + 2: the sum of the rounded row totals
    is just below 4, the two column sums are 2. *)
Lemma kpis_shown_values_break_identity :
  kpis_with binary64 half_dollar_data "Malaysia" 2020 =
    ("1", "0", "0", "0")%string /\
  kpis_with binary64 cents_data "Malaysia" 2020 =
    ("3", "2", "2", "0")%string /\
  ~ (forall sea_data c y tt te ti tb,
       kpis_ints_with binary64 sea_data c y = (tt, te, ti, tb) ->
       tt = (te + ti)%Z /\ tb = (te - ti)%Z).
Proof.
  split; [vm_compute; reflexivity|]. split; [vm_compute; reflexivity|].
  intros H.
  destruct (H cents_data "Malaysia"%string 2020%Z 3%Z 2%Z 2%Z 0%Z) as [E _].
  - vm_compute. reflexivity.
  - discriminate E.
Qed.

(** ** The filtered table *)



Lemma selected_true c y r :
  selected c y r = true <-> country r = c /\ year r = y.
Proof.
  unfold selected. rewrite andb_true_iff, String.eqb_eq, Z.eqb_eq. tauto.
Qed.


(** ** Sorted lists of distinct keys *)

Section SortedUnique.
Context {A : Type} (cmp : A -> A -> comparison).
Hypothesis cmp_eq : forall a b, cmp a b = Eq -> a = b.
Hypothesis cmp_refl : forall a, cmp a a = Eq.
Hypothesis cmp_gt_lt : forall a b, cmp a b = Gt -> cmp b a = Lt.
Hypothesis cmp_trans :
  forall a b c, cmp a b = Lt -> cmp b c = Lt -> cmp a c = Lt.

Lemma In_insert_uniq a x l :
  In x (insert_uniq cmp a l) <-> x = a \/ In x l.
Proof.
  induction l as [|h t IH]; simpl.
  - intuition.
  - destruct (cmp a h) eqn:E; simpl.
    + apply cmp_eq in E. subst h. intuition.
    + intuition.
    + rewrite IH. intuition.
Qed.

Lemma insert_uniq_sorted a l :
  StronglySorted (fun a b => cmp a b = Lt) l ->
  StronglySorted (fun a b => cmp a b = Lt) (insert_uniq cmp a l).
Proof.
  induction 1 as [|h t Ht IH Hh]; simpl.
  - repeat constructor.
  - destruct (cmp a h) eqn:E.
    + now constructor.
    + constructor; [now constructor|].
      constructor; [exact E|].
      rewrite Forall_forall in *. intros x Hx.
      apply cmp_trans with h; [exact E|now apply Hh].
    + constructor; [exact IH|].
      rewrite Forall_forall in *. intros x Hx.
      apply In_insert_uniq in Hx. destruct Hx as [->|Hx].
      * now apply cmp_gt_lt.
      * now apply Hh.
Qed.

Lemma sorted_unique_In x col : In x (sorted_unique cmp col) <-> In x col.
Proof.
  unfold sorted_unique. induction col as [|a col IH]; simpl.
  - tauto.
  - rewrite In_insert_uniq, IH. intuition.
Qed.

Lemma sorted_unique_sorted col :
  StronglySorted (fun a b => cmp a b = Lt) (sorted_unique cmp col).
Proof.
  unfold sorted_unique. induction col as [|a col IH]; simpl.
  - constructor.
  - now apply insert_uniq_sorted.
Qed.

Lemma strictly_sorted_NoDup l :
  StronglySorted (fun a b => cmp a b = Lt) l -> NoDup l.
Proof.
  induction 1 as [|h t Ht IH Hh]; constructor; [|exact IH].
  intros Hin. rewrite Forall_forall in Hh. specialize (Hh h Hin).
  cbv beta in Hh. rewrite cmp_refl in Hh. discriminate.
Qed.
End SortedUnique.

Lemma string_compare_refl a : String.compare a a = Eq.
Proof. now apply String_as_OT.cmp_eq. Qed.

Lemma string_compare_gt_lt a b :
  String.compare a b = Gt -> String.compare b a = Lt.
Proof. intros H. rewrite String.compare_antisym, H. reflexivity. Qed.

Lemma string_compare_trans a b c :
  String.compare a b = Lt -> String.compare b c = Lt -> String.compare a c = Lt.
Proof.
  intros H1 H2. apply String_as_OT.cmp_lt.
  apply String_as_OT.lt_trans with b; now apply String_as_OT.cmp_lt.
Qed.

Lemma categories_In x col : In x (categories col) <-> In x col.
Proof. apply sorted_unique_In. exact String.compare_eq_iff. Qed.

Lemma categories_sorted col : StronglySorted string_lt (categories col).
Proof.
  apply (sorted_unique_sorted String.compare).
  - exact String.compare_eq_iff.
  - exact string_compare_gt_lt.
  - exact string_compare_trans.
Qed.

Lemma categories_NoDup col : NoDup (categories col).
Proof.
  apply (strictly_sorted_NoDup String.compare string_compare_refl).
  apply categories_sorted.
Qed.

Lemma Z_compare_gt_lt a b : (a ?= b)%Z = Gt -> (b ?= a)%Z = Lt.
Proof. intros H. rewrite Z.compare_antisym, H. reflexivity. Qed.

Lemma Z_compare_trans a b c :
  (a ?= b)%Z = Lt -> (b ?= c)%Z = Lt -> (a ?= c)%Z = Lt.
Proof. rewrite !Z.compare_lt_iff. lia. Qed.

Lemma years_In x col : In x (sorted_unique Z.compare col) <-> In x col.
Proof. apply sorted_unique_In. exact Z.compare_eq. Qed.

Lemma years_sorted col : StronglySorted Z.lt (sorted_unique Z.compare col).
Proof.
  apply (sorted_unique_sorted Z.compare).
  - exact Z.compare_eq.
  - exact Z_compare_gt_lt.
  - exact Z_compare_trans.
Qed.
(** ** Strongly sorted lists *)

Lemma StronglySorted_irrefl_NoDup {A} (R : A -> A -> Prop) l :
  (forall a, ~ R a a) -> StronglySorted R l -> NoDup l.
Proof.
  intros Hirr. induction 1 as [|h t Ht IH Hh]; constructor; [|exact IH].
  intros Hin. rewrite Forall_forall in Hh. exact (Hirr h (Hh h Hin)).
Qed.

Lemma StronglySorted_app {A} (R : A -> A -> Prop) l1 l2 :
  StronglySorted R l1 -> StronglySorted R l2 ->
  (forall a b, In a l1 -> In b l2 -> R a b) ->
  StronglySorted R (l1 ++ l2).
Proof.
  induction 1 as [|h t Ht IH Hh]; simpl; intros H2 Hcross.
  - exact H2.
  - constructor.
    + apply IH; [exact H2|]. intros a b Ha Hb. apply Hcross; [now right|exact Hb].
    + apply Forall_app. split; [exact Hh|].
      apply Forall_forall. intros b Hb. apply Hcross; [now left|exact Hb].
Qed.

Lemma StronglySorted_map {A B} (R : A -> A -> Prop) (S : B -> B -> Prop)
    (f : A -> B) l :
  (forall a b, R a b -> S (f a) (f b)) ->
  StronglySorted R l -> StronglySorted S (map f l).
Proof.
  intros Hf. induction 1 as [|h t Ht IH Hh]; simpl; constructor; [exact IH|].
  apply Forall_map. revert Hh. apply Forall_impl. intros a. apply Hf.
Qed.

Lemma StronglySorted_filter {A} (R : A -> A -> Prop) (p : A -> bool) l :
  StronglySorted R l -> StronglySorted R (filter p l).
Proof.
  induction 1 as [|h t Ht IH Hh]; simpl; [constructor|].
  destruct (p h); [|exact IH].
  constructor; [exact IH|].
  rewrite Forall_forall in *. intros x Hx. apply filter_In in Hx.
  now apply Hh.
Qed.

Lemma In_firstn_In {A} n (l : list A) x : In x (firstn n l) -> In x l.
Proof.
  intros H. rewrite <- (firstn_skipn n l). apply in_or_app. now left.
Qed.

Lemma filter_none {A} (p : A -> bool) l :
  (forall x, In x l -> p x = false) -> filter p l = [].
Proof.
  induction l as [|a l IH]; simpl; intros H; [reflexivity|].
  rewrite (H a (or_introl eq_refl)). apply IH. intros x Hx. apply H. now right.
Qed.

Lemma StronglySorted_firstn {A} (R : A -> A -> Prop) n l :
  StronglySorted R l -> StronglySorted R (firstn n l).
Proof.
  intros H. revert n. induction H as [|h t Ht IH Hh]; intros [|n]; simpl;
    try constructor.
  - apply IH.
  - rewrite Forall_forall in *. intros x Hx. apply Hh.
    eapply In_firstn_In; eauto.
Qed.

Lemma key_lt_irrefl k : ~ key_lt k k.
Proof.
  intros [H|[_ H]].
  - rewrite string_compare_refl in H. discriminate.
  - lia.
Qed.

Lemma list_prod_sorted (cs : list string) (ys : list Z) :
  StronglySorted string_lt cs -> StronglySorted Z.lt ys ->
  StronglySorted key_lt (list_prod cs ys).
Proof.
  intros Hc Hy. induction Hc as [|c cs Hcs IH Hlt]; simpl; [constructor|].
  apply StronglySorted_app.
  - apply StronglySorted_map with (R := Z.lt); [|exact Hy].
    intros a b Hab. right. simpl. now split.
  - exact IH.
  - intros a b Ha Hb. apply in_map_iff in Ha. destruct Ha as (y & <- & _).
    destruct b as [c' y']. apply in_prod_iff in Hb. destruct Hb as [Hc' _].
    left. simpl. rewrite Forall_forall in Hlt. now apply Hlt.
Qed.

(** ** Keys and merges *)

Lemma key_eqb_eq a b : key_eqb a b = true <-> a = b.
Proof.
  unfold key_eqb. destruct a as [c y], b as [c' y']. simpl.
  rewrite andb_true_iff, String.eqb_eq, Z.eqb_eq.
  split; [intros [-> ->]; reflexivity|intros [= -> ->]; now split].
Qed.

Lemma filter_NoDup_single {K} (eqb : K -> K -> bool) keys k :
  (forall a b, eqb a b = true <-> a = b) ->
  NoDup keys -> In k keys -> filter (fun k' => eqb k k') keys = [k].
Proof.
  intros Heqb. induction 1 as [|h t Hh Ht IH]; simpl; [tauto|].
  intros [->|Hin].
  - rewrite (proj2 (Heqb k k) eq_refl). f_equal.
    apply filter_none. intros x Hx.
    destruct (eqb k x) eqn:E; [|reflexivity].
    apply Heqb in E. now subst x.
  - destruct (eqb k h) eqn:E.
    + apply Heqb in E. now subst h.
    + now apply IH.
Qed.

(** Two grouped sums over the same keys merge row by row, and no NaN
    appears. *)
Lemma merge_left_same_keys {K A B} (eqb : K -> K -> bool)
    (f : K -> A) (g : K -> B) keys :
  (forall a b, eqb a b = true <-> a = b) ->
  NoDup keys ->
  merge_left eqb (map (fun k => (k, f k)) keys) (map (fun k => (k, g k)) keys)
  = map (fun k => (k, f k, Some (g k))) keys.
Proof.
  intros Heqb Hnd. unfold merge_left.
  set (F := fun l0 : K * A => _).
  assert (H : forall l, incl l keys ->
    flat_map F (map (fun k => (k, f k)) l)
    = map (fun k => (k, f k, Some (g k))) l).
  { induction l as [|k l IH]; intros Hincl; [reflexivity|].
    cbn [map flat_map].
    rewrite IH by (intros x Hx; apply Hincl; now right).
    unfold F at 1. cbn [fst snd]. rewrite filter_map_swap. cbn [fst].
    rewrite (filter_NoDup_single eqb keys k Heqb Hnd)
      by (apply Hincl; now left).
    reflexivity. }
  apply H, incl_refl.
Qed.
(** ** Group keys *)

Lemma group_keys_In {K} (eqb : K -> K -> bool) obs levels key df k :
  (forall a b, eqb a b = true <-> a = b) ->
  In k (group_keys eqb obs levels key df) <->
  In k levels /\ (obs = true -> exists r, In r df /\ key r = k).
Proof.
  intros Heqb. unfold group_keys. rewrite filter_In, orb_true_iff.
  rewrite negb_true_iff, existsb_exists.
  split; intros [Hin H]; (split; [exact Hin|]).
  - intros ->. destruct H as [H|(r & Hr & E)]; [discriminate|].
    exists r. split; [exact Hr|now apply Heqb].
  - destruct obs; [right|now left].
    destruct (H eq_refl) as (r & Hr & E). exists r. split; [exact Hr|].
    now apply Heqb.
Qed.

Lemma group_keys_NoDup {K} (eqb : K -> K -> bool) obs levels key df :
  NoDup levels -> NoDup (group_keys eqb obs levels key df).
Proof. apply NoDup_filter. Qed.

Lemma group_keys_not_observed {K} (eqb : K -> K -> bool) levels key df :
  group_keys eqb false levels key df = levels.
Proof.
  unfold group_keys. simpl. induction levels as [|k l IH]; simpl; congruence.
Qed.

(** ** A sort that meets the contract of [sort_values] *)

Lemma desc_nan_last_b_true a b :
  desc_nan_last_b a b = true <-> desc_nan_last a b.
Proof.
  destruct a as [x|], b as [y|]; simpl; try tauto.
  - apply Qle_bool_iff.
  - split; [discriminate|tauto].
Qed.

Lemma desc_nan_last_total a b :
  desc_nan_last_b a b = false -> desc_nan_last b a.
Proof.
  destruct a as [x|], b as [y|]; simpl; try discriminate; try tauto.
  intros H. destruct (Qlt_le_dec x y) as [Hlt|Hle].
  - now apply Qlt_le_weak.
  - apply Qle_bool_iff in Hle. congruence.
Qed.

Lemma desc_nan_last_trans a b c :
  desc_nan_last a b -> desc_nan_last b c -> desc_nan_last a c.
Proof.
  destruct a as [x|], b as [y|], c as [z|]; simpl; try tauto.
  intros H1 H2. now apply Qle_trans with y.
Qed.

Lemma by_total_trade_trans r s t :
  by_total_trade r s -> by_total_trade s t -> by_total_trade r t.
Proof. apply desc_nan_last_trans. Qed.

Lemma insert_before_perm x l : Permutation (x :: l) (insert_before x l).
Proof.
  induction l as [|h t IH]; simpl; [reflexivity|].
  destruct (desc_nan_last_b (total_trade x) (total_trade h)); [reflexivity|].
  rewrite perm_swap. now constructor.
Qed.

Lemma insert_before_sorted x l :
  StronglySorted by_total_trade l ->
  StronglySorted by_total_trade (insert_before x l).
Proof.
  induction 1 as [|h t Ht IH Hh]; simpl; [repeat constructor|].
  destruct (desc_nan_last_b (total_trade x) (total_trade h)) eqn:E.
  - apply desc_nan_last_b_true in E.
    constructor; [now constructor|]. constructor; [exact E|].
    revert Hh. apply Forall_impl. intros a. now apply by_total_trade_trans.
  - apply desc_nan_last_total in E. constructor; [exact IH|].
    apply (Permutation_Forall (insert_before_perm x t)). now constructor.
Qed.

Lemma sort_values_stable_contract : SortValuesContract sort_values_stable.
Proof.
  split; intros l; unfold sort_values_stable.
  - induction l as [|x l IH]; simpl; [reflexivity|].
    rewrite <- insert_before_perm. now constructor.
  - induction l as [|x l IH]; simpl; [constructor|].
    now apply insert_before_sorted.
Qed.

(** ** The frame of grouped partner totals *)

(** The merge of the two grouped sums in [update_top_partners] builds the
    frame that [chart_g] builds with one aggregation. *)
Lemma top_unsorted_chart_g obs sea_data c y :
  top_unsorted obs sea_data c y = chart_g obs sea_data c y.
Proof.
  unfold top_unsorted, chart_g, groupby_sum, groupby_sum_with.
  cbn [gsum exact_arith].
  rewrite (merge_left_same_keys String.eqb
             (fun k => Qsum (map export_USD
                (filter (fun r => String.eqb (partner_name r) k)
                        (filter (selected c y) sea_data))))
             (fun k => Qsum (map import_USD
                (filter (fun r => String.eqb (partner_name r) k)
                        (filter (selected c y) sea_data))))).
  - rewrite map_map. reflexivity.
  - exact String.eqb_eq.
  - apply group_keys_NoDup, categories_NoDup.
Qed.

Lemma chart_g_partner_names obs sea_data c y :
  map pr_partner_name (chart_g obs sea_data c y) =
  group_keys String.eqb obs (categories (map partner_name sea_data))
    partner_name (filter (selected c y) sea_data).
Proof.
  unfold chart_g. rewrite map_map. simpl. apply map_id.
Qed.

Lemma chart_g_row obs sea_data c y r :
  In r (chart_g obs sea_data c y) ->
  let rows :=
    filter (fun t => String.eqb (partner_name t) (pr_partner_name r))
           (filter (selected c y) sea_data) in
  total_export r = Qsum (map export_USD rows) /\
  total_import r = Some (Qsum (map import_USD rows)) /\
  total_trade r = Some (total_export r + Qsum (map import_USD rows)).
Proof.
  unfold chart_g. intros H. apply in_map_iff in H.
  destruct H as (p & <- & _). simpl. repeat split.
Qed.
(** ** Top partners *)

Lemma StronglySorted_split {A} (R : A -> A -> Prop) n l :
  StronglySorted R l ->
  forall r s, In r (firstn n l) -> In s (skipn n l) -> R r s.
Proof.
  intros H. revert n. induction H as [|h t Ht IH Hh]; intros n r s.
  - rewrite firstn_nil. intros [].
  - destruct n as [|n]; simpl; [intros []|].
    intros [<-|Hr] Hs.
    + rewrite Forall_forall in Hh. apply Hh.
      rewrite <- (firstn_skipn n t). apply in_or_app. now right.
    + now apply (IH n).
Qed.

Lemma top_firstn_sorted_groups sort_values observed sea_data c y :
  update_top_partners sort_values observed sea_data c y =
  firstn 10 (sort_values (chart_g observed sea_data c y)).
Proof.
  unfold update_top_partners. now rewrite top_unsorted_chart_g.
Qed.

Lemma top_rows_in_groups sort_values observed sea_data c y r :
  SortValuesContract sort_values ->
  In r (update_top_partners sort_values observed sea_data c y) ->
  In r (chart_g observed sea_data c y).
Proof.
  intros [Hperm _]. rewrite top_firstn_sorted_groups. intros Hr.
  apply In_firstn_In in Hr.
  now apply (Permutation_in _ (Permutation_sym (Hperm _))).
Qed.

Lemma top_length sort_values observed sea_data c y :
  SortValuesContract sort_values ->
  length (update_top_partners sort_values observed sea_data c y) =
  Nat.min 10 (length (chart_g observed sea_data c y)).
Proof.
  intros [Hperm _]. rewrite top_firstn_sorted_groups, length_firstn.
  now rewrite <- (Permutation_length (Hperm _)).
Qed.

(** X18. Whatever sort meets the contract of [sort_values]:
    [update_top_partners] returns at most 10 rows, in descending order of
    [total_trade], one row per partner; each row carries, in exact
    arithmetic, the partner's export sum and import sum over the records of
    the selected country and year and their sum as [total_trade]; the rows
    are the first 10 of a rearrangement of the grouped frame (the frame of
    [chart_g]), so every row left out has a total no larger than every row
    returned; and every partner of a selected record has a group.  Nothing
    is said about the order of rows with equal totals: [sort_values] is
    called with its default [kind="quicksort"], for which numpy promises
    no order of equal keys. *)
Theorem update_top_partners_spec
    (sort_values : list PartnerRow -> list PartnerRow) (observed : bool)
    (sea_data : DataFrame) (c : string) (y : Z) :
  SortValuesContract sort_values ->
  let filt := filter (selected c y) sea_data in
  let groups := chart_g observed sea_data c y in
  let top := update_top_partners sort_values observed sea_data c y in
  length top = Nat.min 10 (length groups) /\
  StronglySorted by_total_trade top /\
  NoDup (map pr_partner_name top) /\
  (forall r, In r top ->
     let rows :=
       filter (fun t => String.eqb (partner_name t) (pr_partner_name r))
              filt in
     total_export r = Qsum (map export_USD rows) /\
     total_import r = Some (Qsum (map import_USD rows)) /\
     total_trade r = Some (total_export r + Qsum (map import_USD rows)) /\
     In (pr_partner_name r) (map partner_name sea_data) /\
     (observed = true -> rows <> [])) /\
  (exists rest,
     Permutation groups (top ++ rest) /\
     forall r s, In r top -> In s rest -> by_total_trade r s) /\
  (forall t, In t filt ->
     exists r, In r groups /\ pr_partner_name r = partner_name t).
Proof.
  intros Hcontract filt groups top.
  assert (Htop : top = firstn 10 (sort_values groups))
    by apply top_firstn_sorted_groups.
  assert (Hin : forall r, In r top -> In r groups)
    by (intros r; now apply top_rows_in_groups).
  destruct Hcontract as [Hperm Hsorted].
  assert (Hnd : NoDup (map pr_partner_name groups)).
  { unfold groups. rewrite chart_g_partner_names.
    apply group_keys_NoDup, categories_NoDup. }
  split; [|split; [|split; [|split; [|split]]]].
  - rewrite Htop, length_firstn.
    now rewrite <- (Permutation_length (Hperm groups)).
  - rewrite Htop. apply StronglySorted_firstn, Hsorted.
  - rewrite Htop.
    assert (Hs : NoDup (map pr_partner_name (sort_values groups))).
    { revert Hnd. apply Permutation_NoDup, Permutation_map, Hperm. }
    rewrite <- (firstn_skipn 10 (sort_values groups)), map_app in Hs.
    now apply NoDup_app_remove_r in Hs.
  - intros r Hr rows. specialize (Hin r Hr).
    destruct (chart_g_row _ _ _ _ _ Hin) as (He & Hi & Ht).
    repeat split; try assumption.
    + assert (Hk : In (pr_partner_name r) (map pr_partner_name groups))
        by now apply in_map.
      unfold groups in Hk. rewrite chart_g_partner_names in Hk.
      apply (group_keys_In _ _ _ _ _ _ String.eqb_eq) in Hk.
      now apply categories_In.
    + intros Hobs.
      assert (Hk : In (pr_partner_name r) (map pr_partner_name groups))
        by now apply in_map.
      unfold groups in Hk. rewrite chart_g_partner_names in Hk.
      apply (group_keys_In _ _ _ _ _ _ String.eqb_eq) in Hk.
      destruct Hk as [_ Hk]. destruct (Hk Hobs) as (t & Ht' & E).
      intros Hnil.
      assert (Hmem : In t rows).
      { apply filter_In. split; [exact Ht'|]. now apply String.eqb_eq. }
      rewrite Hnil in Hmem. exact Hmem.
  - exists (skipn 10 (sort_values groups)). split.
    + rewrite Htop, firstn_skipn. apply Hperm.
    + rewrite Htop. apply StronglySorted_split, Hsorted.
  - intros t Ht.
    assert (Hk : In (partner_name t) (map pr_partner_name groups)).
    { unfold groups. rewrite chart_g_partner_names.
      apply (group_keys_In _ _ _ _ _ _ String.eqb_eq). split.
      - apply categories_In, in_map. apply filter_In in Ht. tauto.
      - intros _. now exists t. }
    apply in_map_iff in Hk. destruct Hk as (r & E & Hr). now exists r.
Qed.

(** The contract is met by [sort_values_stable], and on the example of the
    specification the two partners come out by descending total. *)
Lemma update_top_partners_spec_witness :
  SortValuesContract sort_values_stable /\
  map pr_partner_name
    (update_top_partners sort_values_stable true example_data
       "Malaysia" 2020) = ["PartnerB"; "PartnerA"]%string /\
  StronglySorted by_total_trade
    (update_top_partners sort_values_stable true example_data
       "Malaysia" 2020).
Proof.
  split; [exact sort_values_stable_contract|].
  split; [reflexivity|].
  exact (proj1 (proj2 (update_top_partners_spec sort_values_stable true
                         example_data "Malaysia"%string 2020%Z
                         sort_values_stable_contract))).
Defined.

(** ** A filter without matching rows *)

Lemma group_keys_observed_nil {K} (eqb : K -> K -> bool) levels
    (key : TradeRecord -> K) :
  group_keys eqb true levels key [] = [].
Proof. unfold group_keys. simpl. apply filter_false. Qed.

(** C6 (as amended). When no record has the selected country and year,
    [kpis] returns the text "0" four times, the table of [update_table] is
    empty, and [update_top_partners] returns no row with a non-zero amount:
    it returns the empty frame when [groupby] emits observed labels only,
    and otherwise one all-zero row for each of up to 10 partner labels of
    the dataset.  [chart_d] returns a figure without markers and without a
    fit line. *)
Theorem no_match_results
    (sort_values : list PartnerRow -> list PartnerRow) (observed : bool)
    (sea_data : DataFrame) (c : string) (y : Z) :
  SortValuesContract sort_values ->
  (forall r, In r sea_data -> selected c y r = false) ->
  let top := update_top_partners sort_values observed sea_data c y in
  kpis_totals sea_data c y = (0, 0, 0, 0) /\
  kpis sea_data c y = ("0", "0", "0", "0")%string /\
  fst (fst (update_table sea_data c y)) = [] /\
  (observed = true -> top = []) /\
  (observed = false ->
   length top =
   Nat.min 10 (length (categories (map partner_name sea_data)))) /\
  (forall r, In r top ->
     total_export r = 0 /\ total_import r = Some 0 /\
     exists tt, total_trade r = Some tt /\ tt == 0) /\
  chart_d sea_data c y = Some {| markers := []; ols_fit := None |}.
Proof.
  intros Hsort Hnone top.
  assert (Hf : filter (selected c y) sea_data = []) by now apply filter_none.
  pose proof (top_length sort_values observed sea_data c y Hsort) as Hlen.
  fold top in Hlen.
  assert (Hrows : forall r, In r top ->
            total_export r = 0 /\ total_import r = Some 0 /\
            total_trade r = Some (total_export r + 0)).
  { intros r Hr. apply (top_rows_in_groups _ _ _ _ _ _ Hsort) in Hr.
    apply chart_g_row in Hr. cbv zeta in Hr. rewrite Hf in Hr. exact Hr. }
  split; [|split; [|split; [|split; [|split; [|split]]]]].
  - unfold kpis_totals, kpis_totals_with. now rewrite Hf.
  - unfold kpis, kpis_with, kpis_totals_with. now rewrite Hf.
  - unfold update_table. now rewrite Hf.
  - intros ->. apply length_zero_iff_nil. rewrite Hlen.
    unfold chart_g. rewrite Hf, group_keys_observed_nil. reflexivity.
  - intros ->. rewrite Hlen. unfold chart_g.
    now rewrite group_keys_not_observed, length_map.
  - intros r Hr. destruct (Hrows r Hr) as (He & Hi & Ht).
    repeat split; try assumption.
    exists (total_export r + 0). split; [exact Ht|].
    rewrite He. reflexivity.
  - unfold chart_d. now rewrite Hf.
Qed.

(** C6 (as stated) fails for [update_top_partners] when [groupby] emits
    every partner label (the default before pandas 3.0): no record of the
    example is from 2021, and the frame for Malaysia in 2021 is not empty,
    it holds one all-zero row per partner of the dataset. *)
Lemma top_partners_rows_without_match :
  ~ (forall sort_values, SortValuesContract sort_values ->
     forall observed sea_data c y,
       (forall r, In r sea_data -> selected c y r = false) ->
       update_top_partners sort_values observed sea_data c y = []).
Proof.
  intros H.
  specialize (H sort_values_stable sort_values_stable_contract false
                example_data "Malaysia"%string 2021%Z).
  assert (Hnone : forall r, In r example_data ->
                    selected "Malaysia" 2021 r = false).
  { intros r [<-|[<-|[]]]; reflexivity. }
  specialize (H Hnone). vm_compute in H. discriminate H.
Qed.

(** On the example of the specification, with the year 2021 selected. *)
Lemma no_match_results_witness :
  (forall r, In r example_data -> selected "Malaysia" 2021 r = false) /\
  kpis example_data "Malaysia" 2021 = ("0", "0", "0", "0")%string /\
  update_top_partners sort_values_stable true example_data "Malaysia" 2021
    = [].
Proof.
  assert (Hnone : forall r, In r example_data ->
                    selected "Malaysia" 2021 r = false).
  { intros r [<-|[<-|[]]]; reflexivity. }
  pose proof (no_match_results sort_values_stable true example_data
                "Malaysia"%string 2021%Z sort_values_stable_contract Hnone)
    as (_ & Hk & _ & Htop & _).
  split; [exact Hnone|]. split; [exact Hk|]. exact (Htop eq_refl).
Defined.
(** ** Totals by country and year *)

Lemma filter_filter {A} (p q : A -> bool) l :
  filter p (filter q l) = filter (fun x => q x && p x) l.
Proof.
  induction l as [|a l IH]; simpl; [reflexivity|].
  destruct (q a); simpl; [destruct (p a)|]; now rewrite IH.
Qed.

Lemma isin_In s l : isin s l = true <-> In s l.
Proof.
  unfold isin. rewrite existsb_exists. split.
  - intros (x & Hx & E). apply String.eqb_eq in E. now subst.
  - intros H. exists s. split; [exact H|apply String.eqb_refl].
Qed.

(** The group of a key inside the frame restricted to the four countries
    is the group inside the whole frame when the key's country is one of
    the four, and is empty otherwise. *)
Lemma chart_a_group sea_data c y :
  filter (fun r => key_eqb (country r, year r) (c, y))
         (filter (fun r => isin (country r) priority) sea_data) =
  if isin c priority then filter (selected c y) sea_data else [].
Proof.
  rewrite filter_filter. destruct (isin c priority) eqn:Hc.
  - apply filter_ext. intros r. unfold key_eqb, selected. cbn [fst snd].
    destruct (String.eqb_spec (country r) c) as [E|]; cbn [andb].
    + now rewrite E, Hc.
    + apply andb_false_r.
  - apply filter_none. intros r _. unfold key_eqb. cbn [fst snd].
    destruct (String.eqb_spec (country r) c) as [E|]; cbn [andb].
    + now rewrite E, Hc.
    + apply andb_false_r.
Qed.

Lemma group_keys_all_observed {K} (eqb : K -> K -> bool) obs levels
    (key : TradeRecord -> K) df :
  forallb (fun k => existsb (fun r => eqb (key r) k) df) levels = true ->
  group_keys eqb obs levels key df = group_keys eqb true levels key df.
Proof.
  intros H. unfold group_keys. apply filter_ext_in. intros k Hk.
  rewrite forallb_forall in H. rewrite (H k Hk). now destruct obs.
Qed.

Lemma negb_forallb {A} (f : A -> bool) l :
  negb (forallb f l) = existsb (fun x => negb (f x)) l.
Proof.
  induction l as [|a l IH]; simpl; [reflexivity|].
  rewrite negb_andb, IH. reflexivity.
Qed.

Lemma Forall2_map_self {A B} (P : A -> B -> Prop) (f : A -> B) l :
  (forall a, In a l -> P a (f a)) -> Forall2 P l (map f l).
Proof.
  induction l as [|a l IH]; simpl; intros H; constructor.
  - apply H. now left.
  - apply IH. intros x Hx. apply H. now right.
Qed.

Lemma Forall2_In_l {A B} (P : A -> B -> Prop) l1 l2 a :
  Forall2 P l1 l2 -> In a l1 -> exists b, In b l2 /\ P a b.
Proof.
  induction 1 as [|x y l1 l2 Hxy H IH]; intros Hin; [destruct Hin|].
  destruct Hin as [<-|Hin].
  - exists y. split; [now left|exact Hxy].
  - destruct (IH Hin) as (b & Hb & Hp). exists b. split; [now right|exact Hp].
Qed.

Lemma Forall2_In_r {A B} (P : A -> B -> Prop) l1 l2 b :
  Forall2 P l1 l2 -> In b l2 -> exists a, In a l1 /\ P a b.
Proof.
  induction 1 as [|x y l1 l2 Hxy H IH]; intros Hin; [destruct Hin|].
  destruct Hin as [<-|Hin].
  - exists x. split; [now left|exact Hxy].
  - destruct (IH Hin) as (a & Ha & Hp). exists a. split; [now right|exact Hp].
Qed.

Lemma as_categorical_priority c :
  as_categorical chart_a_category_order c =
  if isin c priority then Some c else None.
Proof. reflexivity. Qed.

(** The frame of [chart_a], one row per combination of country and year
    that occurs in the selected rows: the merge finds its partner row for
    every key, so no NaN appears. *)
Lemma chart_a_by_keys A observed sea_data :
  let sel := filter (fun r => isin (country r) priority) sea_data in
  let levels :=
    list_prod (categories (map country sea_data))
              (sorted_unique Z.compare (map year sel)) in
  let occurs :=
    fun k => existsb (fun r => key_eqb (country r, year r) k) sel in
  chart_a A observed sea_data =
  if negb observed && negb (forallb occurs levels) then None
  else
    Some
      (map (fun k =>
              let rows :=
                filter (fun r => key_eqb (country r, year r) k) sel in
              {| ta_country := as_categorical chart_a_category_order (fst k);
                 ta_year := snd k;
                 ta_trade_value :=
                   Some (fadd A (gsum A (map export_USD rows))
                                (gsum A (map import_USD rows)));
                 ta_import_USD := Some (gsum A (map import_USD rows)) |})
           (filter occurs levels)).
Proof.
  intros sel levels occurs. unfold chart_a. fold priority. fold sel.
  fold levels. fold occurs.
  destruct (negb observed && negb (forallb occurs levels)) eqn:Hc;
    [reflexivity|].
  assert (Hk : group_keys key_eqb observed levels
                 (fun r => (country r, year r)) sel = filter occurs levels).
  { destruct observed; [reflexivity|]. simpl in Hc.
    apply negb_false_iff in Hc.
    now rewrite (group_keys_all_observed _ _ _ _ _ Hc). }
  rewrite Hk. unfold groupby_sum_with. f_equal.
  rewrite (merge_left_same_keys key_eqb
             (fun k => gsum A (map export_USD
                (filter (fun r => key_eqb (country r, year r) k) sel)))
             (fun k => gsum A (map import_USD
                (filter (fun r => key_eqb (country r, year r) k) sel)))).
  - rewrite map_map. reflexivity.
  - exact key_eqb_eq.
  - apply NoDup_filter.
    apply (StronglySorted_irrefl_NoDup key_lt); [exact key_lt_irrefl|].
    apply list_prod_sorted; [apply categories_sorted|apply years_sorted].
Qed.

(** The keys of the frame are the combinations of one of the four
    countries and a year that have a record. *)
Lemma chart_a_keys_In sea_data k :
  let sel := filter (fun r => isin (country r) priority) sea_data in
  In k (filter (fun k => existsb (fun r => key_eqb (country r, year r) k) sel)
          (list_prod (categories (map country sea_data))
                     (sorted_unique Z.compare (map year sel)))) <->
  exists r, In r sea_data /\ isin (country r) priority = true /\
            country r = fst k /\ year r = snd k.
Proof.
  intros sel. rewrite filter_In, existsb_exists.
  destruct k as [c y]. rewrite in_prod_iff, categories_In, years_In.
  rewrite !in_map_iff. cbn [fst snd].
  assert (Hsel : forall r, In r sel <->
            In r sea_data /\ isin (country r) priority = true).
  { intros r. unfold sel. apply filter_In. }
  split.
  - intros (_ & r & Hr & E). apply Hsel in Hr. apply key_eqb_eq in E.
    injection E as E1 E2. exists r. tauto.
  - intros (r & Hr & Hp & E1 & E2).
    assert (Hs : In r sel) by (apply Hsel; tauto).
    split; [split|].
    + exists r. tauto.
    + exists r. tauto.
    + exists r. split; [exact Hs|]. apply key_eqb_eq. now rewrite E1, E2.
Qed.

Lemma chart_a_keys_sorted sea_data :
  let sel := filter (fun r => isin (country r) priority) sea_data in
  StronglySorted key_lt
    (filter (fun k => existsb (fun r => key_eqb (country r, year r) k) sel)
       (list_prod (categories (map country sea_data))
                  (sorted_unique Z.compare (map year sel)))).
Proof.
  intros sel. apply StronglySorted_filter.
  apply list_prod_sorted; [apply categories_sorted|apply years_sorted].
Qed.

(** The rows of the frame of [chart_a], key by key. *)
Lemma chart_a_frame A observed sea_data rows :
  chart_a A observed sea_data = Some rows ->
  exists keys : list (string * Z),
    StronglySorted key_lt keys /\
    (forall k, In k keys <->
       exists r, In r sea_data /\ isin (country r) priority = true /\
                 country r = fst k /\ year r = snd k) /\
    Forall2
      (fun k row =>
         ta_country row = Some (fst k) /\
         ta_year row = snd k /\
         ta_trade_value row =
           Some (fadd A
                   (gsum A (map export_USD
                              (filter (selected (fst k) (snd k)) sea_data)))
                   (gsum A (map import_USD
                              (filter (selected (fst k) (snd k)) sea_data)))))
      keys rows.
Proof.
  pose (sel := filter (fun r => isin (country r) priority) sea_data).
  pose (levels := list_prod (categories (map country sea_data))
                            (sorted_unique Z.compare (map year sel))).
  pose (occurs := fun k =>
          existsb (fun r => key_eqb (country r, year r) k) sel).
  pose proof (chart_a_by_keys A observed sea_data) as Hrows.
  cbv zeta in Hrows. fold sel levels occurs in Hrows.
  intros Hsome. rewrite Hrows in Hsome.
  destruct (negb observed && negb (forallb occurs levels));
    [discriminate|].
  injection Hsome as <-.
  exists (filter occurs levels).
  split; [apply chart_a_keys_sorted|].
  split; [intros k; apply chart_a_keys_In|].
  apply Forall2_map_self. intros [c y] Hk.
  apply chart_a_keys_In in Hk. cbn [fst snd] in Hk.
  destruct Hk as (r & _ & Hp & Ec & _). rewrite Ec in Hp.
  cbn [ta_year ta_country ta_trade_value fst snd].
  rewrite as_categorical_priority, Hp.
  fold sel. unfold sel. rewrite chart_a_group, Hp.
  repeat split.
Qed.

(** C5 (as amended). Whenever [chart_a] returns a frame, the frame has one
    row per (country, year) group of Malaysia, Indonesia, Singapore and
    Thailand that is present in the dataset, and no other row: records of
    other countries are filtered out.  The row of a group carries the
    country, the year and [trade_value], the group's summed export plus its
    summed import.  The rows are in increasing order of country label and
    then of year (so Indonesia comes before Malaysia); the order Malaysia,
    Indonesia, Singapore, Thailand is the category order attached to the
    country column.  [chart_a] returns a frame when [groupby] emits observed
    keys only; otherwise line 364 raises exactly when some combination of
    a country label of the dataset and a year of the four countries has no
    record of the four countries. *)
Theorem chart_a_rows (A : Arith) (observed : bool) (sea_data : DataFrame) :
  (chart_a A observed sea_data = None <->
   observed = false /\
   exists c y,
     (exists r, In r sea_data /\ country r = c) /\
     (exists r, In r sea_data /\ isin (country r) priority = true /\
                year r = y) /\
     (forall r, In r sea_data -> isin (country r) priority = true ->
        ~ (country r = c /\ year r = y))) /\
  (forall rows, chart_a A observed sea_data = Some rows ->
   exists keys : list (string * Z),
     StronglySorted key_lt keys /\
     (forall k, In k keys <->
        exists r, In r sea_data /\ isin (country r) priority = true /\
                  country r = fst k /\ year r = snd k) /\
     Forall2
       (fun k row =>
          ta_country row = Some (fst k) /\
          ta_year row = snd k /\
          ta_trade_value row =
            Some (fadd A
                    (gsum A (map export_USD
                               (filter (selected (fst k) (snd k)) sea_data)))
                    (gsum A (map import_USD
                               (filter (selected (fst k) (snd k)) sea_data)))))
       keys rows) /\
  chart_a_category_order = priority.
Proof.
  pose (sel := filter (fun r => isin (country r) priority) sea_data).
  pose (levels := list_prod (categories (map country sea_data))
                            (sorted_unique Z.compare (map year sel))).
  pose (occurs := fun k =>
          existsb (fun r => key_eqb (country r, year r) k) sel).
  assert (Hsel : forall r, In r sel <->
            In r sea_data /\ isin (country r) priority = true).
  { intros r. unfold sel. apply filter_In. }
  pose proof (chart_a_by_keys A observed sea_data) as Hrows.
  cbv zeta in Hrows. fold sel levels occurs in Hrows.
  split; [|split; [|reflexivity]].
  - rewrite Hrows.
    destruct (negb observed && negb (forallb occurs levels)) eqn:Hc.
    + apply andb_true_iff in Hc. destruct Hc as [Ho Hf].
      apply negb_true_iff in Ho. rewrite negb_forallb in Hf.
      apply existsb_exists in Hf. destruct Hf as ([c y] & Hk & Hn).
      apply negb_true_iff in Hn.
      split; [intros _|reflexivity]. split; [exact Ho|].
      exists c, y. unfold levels in Hk.
      rewrite in_prod_iff, categories_In, years_In, !in_map_iff in Hk.
      destruct Hk as ((r1 & E1 & H1) & (r2 & E2 & H2)).
      apply Hsel in H2.
      split; [now exists r1|]. split; [exists r2; tauto|].
      intros r Hr Hp [Ec Ey].
      assert (Ht : occurs (c, y) = true).
      { unfold occurs. apply existsb_exists. exists r.
        split; [apply Hsel; tauto|]. apply key_eqb_eq. now rewrite Ec, Ey. }
      congruence.
    + split; [discriminate|]. intros (Ho & c & y & H1 & H2 & H3).
      exfalso. subst observed. simpl in Hc. apply negb_false_iff in Hc.
      rewrite forallb_forall in Hc.
      destruct H1 as (r1 & Hr1 & E1), H2 as (r2 & Hr2 & Hp2 & E2).
      assert (Hk : In (c, y) levels).
      { unfold levels. rewrite in_prod_iff, categories_In, years_In.
        rewrite !in_map_iff. split; [now exists r1|].
        exists r2. split; [exact E2|]. apply Hsel. tauto. }
      specialize (Hc _ Hk). unfold occurs in Hc.
      apply existsb_exists in Hc. destruct Hc as (r & Hr & E).
      apply key_eqb_eq in E. injection E as Ec Ey. apply Hsel in Hr.
      apply (H3 r); tauto.
  - intros rows. apply chart_a_frame.
Qed.

(** C5 (as stated) fails.  With Malaysia listed before Indonesia in the
    dataset, the first row is Indonesia's, not Malaysia's; and the group of
    a country outside the four has no row. *)
Lemma chart_a_rows_not_as_claimed :
  option_map (map ta_country) (chart_a binary64 true two_countries) =
    Some [Some "Indonesia"; Some "Malaysia"]%string /\
  option_map (map ta_country) (chart_a binary64 false two_countries) =
    Some [Some "Indonesia"; Some "Malaysia"]%string /\
  chart_a binary64 true vietnam_only = Some [] /\
  chart_a binary64 false vietnam_only = Some [].
Proof. repeat split; vm_compute; reflexivity. Qed.

(** The naive scan is exact on whole numbers. *)
Lemma naive_scan_exact A sea_data c y :
  ArithContract A ->
  (forall r, In r (filter (selected c y) sea_data) ->
     whole (export_USD r) /\ whole (import_USD r)) ->
  Qsum (map (fun r => Qabs (export_USD r) + Qabs (import_USD r))
            (filter (selected c y) sea_data)) <= two53 ->
  naive_scan A sea_data c y ==
  Qsum (map (fun r => export_USD r + import_USD r)
            (filter (selected c y) sea_data)).
Proof.
  intros HA. unfold naive_scan.
  assert (H : forall l acc,
    whole acc ->
    (forall r, In r (filter (selected c y) l) ->
       whole (export_USD r) /\ whole (import_USD r)) ->
    Qabs acc +
    Qsum (map (fun r => Qabs (export_USD r) + Qabs (import_USD r))
              (filter (selected c y) l)) <= two53 ->
    fold_left
      (fun acc r =>
         if String.eqb (country r) c && Z.eqb (year r) y
         then fadd A acc (fadd A (export_USD r) (import_USD r)) else acc)
      l acc ==
    acc + Qsum (map (fun r => export_USD r + import_USD r)
                    (filter (selected c y) l))).
  { induction l as [|r l IH]; intros acc Hacc Hw Hb; cbn [fold_left].
    - simpl. ring.
    - cbn [filter] in Hw, Hb |- *.
      change (selected c y r)
        with (String.eqb (country r) c && Z.eqb (year r) y) in *.
      destruct (String.eqb (country r) c && Z.eqb (year r) y) eqn:Hs.
      + cbn [map Qsum fold_right] in Hb |- *.
        fold (Qsum (map (fun r => Qabs (export_USD r) + Qabs (import_USD r))
                        (filter (selected c y) l))) in Hb.
        fold (Qsum (map (fun r => export_USD r + import_USD r)
                        (filter (selected c y) l))).
        destruct (Hw r (or_introl eq_refl)) as [Hwe Hwi].
        assert (Hn : 0 <= Qsum (map (fun r => Qabs (export_USD r)
                                              + Qabs (import_USD r))
                                   (filter (selected c y) l))).
        { clear. induction (filter (selected c y) l) as [|a t IH]; simpl;
            [apply Qle_refl|].
          pose proof (Qabs_nonneg (export_USD a)).
          pose proof (Qabs_nonneg (import_USD a)). lra. }
        pose proof (Qabs_nonneg acc) as Hacc0.
        pose proof (Qabs_triangle (export_USD r) (import_USD r)) as Ht.
        assert (E1 : fadd A (export_USD r) (import_USD r) ==
                     export_USD r + import_USD r).
        { apply (fadd_whole A HA); [exact Hwe|exact Hwi|lra]. }
        assert (W1 : whole (fadd A (export_USD r) (import_USD r))).
        { apply (whole_eq _ _ E1). now apply whole_plus. }
        assert (E2 : fadd A acc (fadd A (export_USD r) (import_USD r)) ==
                     acc + (export_USD r + import_USD r)).
        { rewrite (fadd_whole A HA); [now rewrite E1|exact Hacc|exact W1|].
          rewrite E1. lra. }
        pose proof (Qabs_triangle acc (export_USD r + import_USD r)) as Ht2.
        rewrite IH.
        * rewrite E2. ring.
        * apply (whole_eq _ _ E2). apply whole_plus; [exact Hacc|].
          now apply whole_plus.
        * intros t Ht'. apply Hw. now right.
        * rewrite E2. lra.
      + apply IH; [exact Hacc| |exact Hb]. exact Hw. }
  intros Hw Hb. rewrite H.
  - ring.
  - exists 0%Z. reflexivity.
  - exact Hw.
  - change (Qabs 0) with 0. lra.
Qed.

(** The two-step total of a group is exact on whole numbers. *)
Lemma two_step_exact A (df : DataFrame) :
  ArithContract A ->
  (forall r, In r df -> whole (export_USD r) /\ whole (import_USD r)) ->
  Qsum (map (fun r => Qabs (export_USD r) + Qabs (import_USD r)) df)
    <= two53 ->
  fadd A (gsum A (map export_USD df)) (gsum A (map import_USD df)) ==
  Qsum (map (fun r => export_USD r + import_USD r) df).
Proof.
  intros HA Hw Hb.
  destruct (amounts_bound df Hb) as (Hbe & Hbi & _).
  destruct (fsum_column A export_USD df HA) as [_ Ee];
    [intros r Hr; apply Hw, Hr|exact Hbe|].
  destruct (fsum_column A import_USD df HA) as [_ Ei];
    [intros r Hr; apply Hw, Hr|exact Hbi|].
  rewrite (fadd_whole A HA).
  - rewrite Ee, Ei. symmetry. apply Qsum_map_plus.
  - apply (whole_eq _ _ Ee). apply whole_Qsum. intros r Hr. apply Hw, Hr.
  - apply (whole_eq _ _ Ei). apply whole_Qsum. intros r Hr. apply Hw, Hr.
  - rewrite Ee, Ei.
    pose proof (Qabs_Qsum (map export_USD df)) as H1.
    pose proof (Qabs_Qsum (map import_USD df)) as H2.
    rewrite map_map in H1, H2. rewrite Qsum_map_plus in Hb. lra.
Qed.

(** C7 (as amended). Whenever [chart_a] returns a frame and the export and
    import values of the records of Malaysia, Indonesia, Singapore and
    Thailand are whole numbers whose absolute values add up to at most
    2^53: every row of the frame carries as [trade_value] the result of the
    naive scan for its country and year, and every (country, year) pair of
    the four countries that has a record has such a row.  This holds in
    every arithmetic that is exact on such whole numbers, as float64 is. *)
Theorem chart_a_matches_naive_scan (A : Arith) (observed : bool)
    (sea_data : DataFrame) (rows : list TotalsRow) :
  ArithContract A ->
  chart_a A observed sea_data = Some rows ->
  (forall r, In r sea_data -> isin (country r) priority = true ->
     whole (export_USD r) /\ whole (import_USD r)) ->
  Qsum (map (fun r => Qabs (export_USD r) + Qabs (import_USD r))
            (filter (fun r => isin (country r) priority) sea_data))
    <= two53 ->
  (forall row c,
     In row rows -> ta_country row = Some c ->
     exists tv, ta_trade_value row = Some tv /\
                tv == naive_scan A sea_data c (ta_year row)) /\
  (forall r,
     In r sea_data -> isin (country r) priority = true ->
     exists row tv,
       In row rows /\
       ta_country row = Some (country r) /\ ta_year row = year r /\
       ta_trade_value row = Some tv /\
       tv == naive_scan A sea_data (country r) (year r)).
Proof.
  intros HA Hsome Hw Hb.
  pose (sel := filter (fun r => isin (country r) priority) sea_data).
  assert (Hgroup : forall c y, isin c priority = true ->
    filter (selected c y) sea_data =
    filter (fun r => key_eqb (country r, year r) (c, y)) sel).
  { intros c y Hc. unfold sel. now rewrite chart_a_group, Hc. }
  assert (Hrow : forall c y, isin c priority = true ->
    fadd A (gsum A (map export_USD (filter (selected c y) sea_data)))
           (gsum A (map import_USD (filter (selected c y) sea_data)))
    == naive_scan A sea_data c y).
  { intros c y Hc.
    assert (Hw' : forall r, In r (filter (selected c y) sea_data) ->
              whole (export_USD r) /\ whole (import_USD r)).
    { intros r Hr. apply filter_In in Hr. destruct Hr as [Hr Hs].
      apply selected_true in Hs. destruct Hs as [Ec _].
      apply Hw; [exact Hr|now rewrite Ec]. }
    assert (Hb' : Qsum (map (fun r => Qabs (export_USD r)
                                      + Qabs (import_USD r))
                            (filter (selected c y) sea_data)) <= two53).
    { rewrite (Hgroup c y Hc). eapply Qle_trans; [|exact Hb].
      apply Qsum_filter_le. intros r.
      pose proof (Qabs_nonneg (export_USD r)).
      pose proof (Qabs_nonneg (import_USD r)). lra. }
    rewrite (two_step_exact A _ HA Hw' Hb').
    symmetry. now apply naive_scan_exact. }
  destruct (chart_a_frame A observed sea_data rows Hsome)
    as (keys & _ & Hkeys & Hall).
  split.
  - intros row c Hin Hc.
    destruct (Forall2_In_r _ _ _ _ Hall Hin) as ([c' y'] & Hk & Hc' & Hy & Ht).
    cbn [fst snd] in *. rewrite Hc' in Hc. injection Hc as ->.
    apply Hkeys in Hk. destruct Hk as (r & _ & Hp & Ec & _).
    cbn [fst] in Ec. rewrite Ec in Hp.
    eexists. split; [exact Ht|]. rewrite Hy. now apply Hrow.
  - intros r Hr Hp.
    assert (Hk : In (country r, year r) keys).
    { apply Hkeys. exists r. cbn [fst snd]. tauto. }
    destruct (Forall2_In_l _ _ _ _ Hall Hk) as (row & Hin & Hc & Hy & Ht).
    cbn [fst snd] in *.
    exists row. eexists. split; [exact Hin|]. split; [exact Hc|].
    split; [exact Hy|]. split; [exact Ht|]. now apply Hrow.
Qed.

(** On the example of the specification, in float64 arithmetic: the frame
    has the one row of Malaysia in 2020, whose [trade_value] 430 is the
    result of the naive scan. *)
Lemma chart_a_matches_naive_scan_witness :
  exists row tv,
    chart_a binary64 true example_data = Some [row] /\
    ta_trade_value row = Some tv /\
    tv == naive_scan binary64 example_data "Malaysia" 2020 /\
    tv == 430.
Proof.
  assert (Hsome : exists row, chart_a binary64 true example_data = Some [row]).
  { eexists. vm_compute. reflexivity. }
  destruct Hsome as (row & Hsome).
  assert (Hw : forall r, In r example_data ->
            isin (country r) priority = true ->
            whole (export_USD r) /\ whole (import_USD r)).
  { intros r [<-|[<-|[]]] _; split; simpl.
    - exists 100%Z. reflexivity.
    - exists 50%Z. reflexivity.
    - exists 200%Z. reflexivity.
    - exists 80%Z. reflexivity. }
  assert (Hb : Qsum (map (fun r => Qabs (export_USD r) + Qabs (import_USD r))
                      (filter (fun r => isin (country r) priority)
                              example_data)) <= two53).
  { vm_compute. discriminate. }
  destruct (chart_a_matches_naive_scan binary64 true example_data [row]
              binary64_contract Hsome Hw Hb) as [_ H].
  destruct (H (trade "Malaysia" "PartnerA" 2020 100 50))
    as (row' & tv & Hin & _ & _ & Htv & Hscan).
  - now left.
  - reflexivity.
  - destruct Hin as [<-|[]]. exists row, tv.
    split; [exact Hsome|]. split; [exact Htv|]. split; [exact Hscan|].
    rewrite Hscan. vm_compute. reflexivity.
Defined.

(** C7 (as stated) fails.  A (country, year) pair of a country outside the
    four has no row at all: for the one record of Vietnam the naive scan
    gives 12 and the frame is empty.  And in float64 arithmetic the two
    methods differ on amounts that are not whole numbers: for two records
    with the amounts 0.6 and 1.3, and 1.4 and 0.7, the two-step total is 4
    and the naive scan gives 3.9999999999999996. *)
Lemma chart_a_differs_from_naive_scan :
  chart_a binary64 true vietnam_only = Some [] /\
  chart_a binary64 false vietnam_only = Some [] /\
  naive_scan binary64 vietnam_only "Vietnam" 2020 == 12 /\
  (exists row tv,
     chart_a binary64 true cents_data = Some [row] /\
     chart_a binary64 false cents_data = Some [row] /\
     ta_country row = Some "Malaysia"%string /\ ta_year row = 2020%Z /\
     ta_trade_value row = Some tv /\ tv == 4 /\
     naive_scan binary64 cents_data "Malaysia" 2020 ==
       9007199254740991 # 2251799813685248 /\
     ~ tv == naive_scan binary64 cents_data "Malaysia" 2020).
Proof.
  split; [vm_compute; reflexivity|]. split; [vm_compute; reflexivity|].
  split; [vm_compute; reflexivity|].
  eexists. eexists.
  split; [vm_compute; reflexivity|]. split; [vm_compute; reflexivity|].
  cbn [ta_country ta_year ta_trade_value].
  split; [reflexivity|]. split; [reflexivity|]. split; [reflexivity|].
  split; [vm_compute; reflexivity|]. split; [vm_compute; reflexivity|].
  vm_compute. discriminate.
Qed.

(** ** The loader *)

(** A row whose year does not read as a number makes the conversion
    raise, wherever the row stands. *)
Lemma astype_int_none col : astype_int col = None <-> In None col.
Proof.
  induction col as [|[v|] col IH]; simpl.
  - split; [discriminate|tauto].
  - destruct (astype_int col); simpl.
    + split; [discriminate|]. intros [H|H]; [discriminate|].
      apply IH in H. discriminate.
    + split; [intros _; right; now apply IH|reflexivity].
  - split; [now left|reflexivity].
Qed.




(** The rows with text in the year column are not dropped: the loader
    raises on any complete row whose year does not read as a number. *)
Lemma load_raises_on_unparsed_year to_number dfs r :
  In r (concat dfs) -> row_notna r = true ->
  to_number (csv_year r) = None ->
  load to_number dfs = inl IntCastingNaNError.
Proof.
  intros Hin Hna Hr. destruct dfs as [|f dfs]; [destruct Hin|].
  unfold load.
  assert (H : astype_int
                (to_numeric_coerce to_number
                   (map csv_year (dropna (concat (f :: dfs))))) = None).
  { apply astype_int_none. unfold to_numeric_coerce. rewrite map_map.
    apply in_map_iff. exists r. split; [exact Hr|].
    apply filter_In. now split. }
  now rewrite H.
Qed.

(** C3. The claim does not hold of the loader: a row without a missing
    field whose year is text (here "abc", which [read_csv] does not read as
    a missing value) passes [dropna], which runs first; its year becomes
    NaN afterwards, and [astype(int)] raises.  Here, on one file of two
    rows. *)
Theorem load_text_year_raises (to_number : string -> option Q) :
  to_number "abc"%string = None ->
  dropna (concat text_year_files) = concat text_year_files /\
  load to_number text_year_files = inl IntCastingNaNError.
Proof.
  intros Habc. split; [reflexivity|].
  apply load_raises_on_unparsed_year
    with (r := mkCsvRow "Malaysia" "MYS" "PartnerB" "PTB" "abc" "200" "80"
                        "120").
  - simpl. right. now left.
  - reflexivity.
  - exact Habc.
Qed.

(** With the reader of decimal numerals: "abc" is not a numeral, "2020" is
    one, and the loader raises. *)
Lemma load_text_year_raises_witness :
  read_decimal "abc" = None /\
  read_decimal "2020" = Some 2020 /\
  load read_decimal text_year_files = inl IntCastingNaNError.
Proof.
  split; [reflexivity|]. split; [reflexivity|].
  exact (proj2 (load_text_year_raises read_decimal eq_refl)).
Defined.

(** ** Settings and default filter values *)

Lemma fold_max_spec h t :
  let M := fold_right Z.max h t in
  In M (h :: t) /\ forall x, In x (h :: t) -> (x <= M)%Z.
Proof.
  induction t as [|a t IH]; simpl.
  - split; [now left|]. intros x [<-|[]]. lia.
  - destruct IH as [Hin Hle]. split.
    + destruct (Z.max_spec a (fold_right Z.max h t)) as [[_ E]|[_ E]];
        rewrite E.
      * destruct Hin as [Hin|Hin]; [now left|right; now right].
      * right. now left.
    + intros x [<-|[<-|Hx]].
      * specialize (Hle h (or_introl eq_refl)). lia.
      * lia.
      * specialize (Hle x (or_intror Hx)). lia.
Qed.

Lemma fold_min_spec h t :
  let m := fold_right Z.min h t in
  In m (h :: t) /\ forall x, In x (h :: t) -> (m <= x)%Z.
Proof.
  induction t as [|a t IH]; simpl.
  - split; [now left|]. intros x [<-|[]]. lia.
  - destruct IH as [Hin Hle]. split.
    + destruct (Z.min_spec a (fold_right Z.min h t)) as [[_ E]|[_ E]];
        rewrite E.
      * right. now left.
      * destruct Hin as [Hin|Hin]; [now left|right; now right].
    + intros x [<-|[<-|Hx]].
      * specialize (Hle h (or_introl eq_refl)). lia.
      * lia.
      * specialize (Hle x (or_intror Hx)). lia.
Qed.

(** C9 (as amended). For a loaded dataset with at least one record, the
    default country is "Malaysia", the first entry of the priority list and
    of the dropdown; the default year is the upper end [YEAR_MAX] of the
    slider, which is the larger of the dataset's last year and 2022; the
    lower end [YEAR_MIN] is the smaller of the dataset's first year and
    2015.  So the default year is at least 2022 and at least every year of
    the dataset, and the slider covers 2015 to 2022 and every year of the
    dataset. *)
Theorem default_filter_values (sea_data : DataFrame) :
  sea_data <> [] ->
  exists m M,
    In m (map year sea_data) /\ In M (map year sea_data) /\
    (forall r, In r sea_data -> (m <= year r <= M)%Z) /\
    YEAR_MIN sea_data = Some (Z.min m 2015) /\
    YEAR_MAX sea_data = Some (Z.max M 2022) /\
    selected_year_default sea_data = Some (Z.max M 2022) /\
    selected_country_default = "Malaysia"%string /\
    hd_error priority = Some selected_country_default /\
    hd_error (COUNTRY_CHOICES sea_data) = Some selected_country_default.
Proof.
  intros Hne. destruct sea_data as [|r0 rest]; [congruence|].
  pose proof (fold_min_spec (year r0) (map year rest)) as [Hm Hmle].
  pose proof (fold_max_spec (year r0) (map year rest)) as [HM HMle].
  exists (fold_right Z.min (year r0) (map year rest)),
         (fold_right Z.max (year r0) (map year rest)).
  split; [exact Hm|]. split; [exact HM|]. split.
  - intros r Hr. split; [apply Hmle|apply HMle];
      change (year r0 :: map year rest) with (map year (r0 :: rest));
      now apply in_map.
  - repeat split.
Qed.

(** On the example of the specification the last year is 2020 and the
    default year is 2022. *)
Lemma default_filter_values_witness :
  example_data <> [] /\
  exists M, In M (map year example_data) /\
            selected_year_default example_data = Some (Z.max M 2022).
Proof.
  assert (Hne : example_data <> []) by discriminate.
  destruct (default_filter_values example_data Hne)
    as (m & M & _ & HM & _ & _ & _ & Hy & _).
  split; [exact Hne|]. exists M. split; [exact HM|exact Hy].
Defined.

(** C9 (as stated) fails when "floored/ceilinged to the interval
    [2015, 2022]" is read as a value of that interval: the default year is
    2022 for a dataset whose last year is 2020 (and 2020 is already in the
    interval), and it is 2030, outside the interval, for a dataset whose
    last year is 2030. *)
Lemma default_year_not_clamped :
  col_max (map year example_data) = Some 2020%Z /\
  selected_year_default example_data = Some 2022%Z /\
  selected_year_default example_data
    <> Some (Z.min (Z.max 2020 2015) 2022) /\
  selected_year_default late_data = Some 2030%Z /\
  ~ (2015 <= 2030 <= 2022)%Z.
Proof.
  repeat split; try reflexivity.
  - vm_compute. discriminate.
  - lia.
Qed.
(** ** Sums for the straight-line fit *)

Lemma count_succ (n : nat) :
  inject_Z (Z.of_nat (S n)) == inject_Z (Z.of_nat n) + 1.
Proof.
  rewrite Nat2Z.inj_succ. unfold Z.succ. now rewrite inject_Z_plus.
Qed.

Lemma count_pos (n : nat) : (0 < n)%nat -> 0 < inject_Z (Z.of_nat n).
Proof.
  intros H. change 0 with (inject_Z 0). rewrite <- Zlt_Qlt. lia.
Qed.

Lemma Sxy_cons a b x y : Sxy (a :: x) (b :: y) = a * b + Sxy x y.
Proof. reflexivity. Qed.

(** Sum of products of deviations from two reference points. *)
Lemma sum_deviations u v x y :
  length x = length y ->
  Qsum (map (fun p => (fst p - u) * (snd p - v)) (combine x y)) ==
  Sxy x y - u * Qsum y - v * Qsum x
  + inject_Z (Z.of_nat (length x)) * u * v.
Proof.
  revert y. induction x as [|a x IH]; intros [|b y] Hlen; try discriminate.
  - simpl. unfold Sxy. simpl. ring.
  - injection Hlen as Hlen. cbn [combine map Qsum fold_right length fst snd].
    fold (Qsum (map (fun p => (fst p - u) * (snd p - v)) (combine x y))).
    rewrite (IH y Hlen), Sxy_cons, count_succ.
    fold (Qsum x). fold (Qsum y). ring.
Qed.


Lemma Qsquare_nonneg a : 0 <= a * a.
Proof. nra. Qed.


Lemma Qsum_squares_zero (f : Q -> Q) l :
  Qsum (map (fun a => f a * f a) l) == 0 ->
  forall a, In a l -> f a == 0.
Proof.
  induction l as [|h t IH]; simpl; [tauto|].
  intros Hsum a Ha.
  assert (Hh : 0 <= f h * f h) by apply Qsquare_nonneg.
  assert (Ht : 0 <= Qsum (map (fun a => f a * f a) t)).
  { clear. induction t as [|b t IH]; simpl; [apply Qle_refl|].
    assert (Hb : 0 <= f b * f b) by apply Qsquare_nonneg. lra. }
  destruct Ha as [<-|Ha].
  - assert (E : f h * f h == 0) by lra.
    apply Qmult_integral in E. tauto.
  - apply IH; [lra|exact Ha].
Qed.
(** ** Covariance and variance in terms of the sums *)

Lemma cov_sums x y :
  length x = length y -> (0 < length x)%nat ->
  let n := inject_Z (Z.of_nat (length x)) in
  n * n * cov x y == n * Sxy x y - Qsum x * Qsum y.
Proof.
  intros Hlen Hpos n.
  assert (Hn : ~ n == 0).
  { apply Qnot_eq_sym, Qlt_not_eq. now apply count_pos. }
  unfold cov. unfold mean at 1.
  rewrite length_map, length_combine, <- Hlen, Nat.min_id. fold n.
  rewrite (sum_deviations (mean x) (mean y) x y Hlen). fold n.
  unfold mean. rewrite <- Hlen. fold n. field. exact Hn.
Qed.

Lemma var_sums x :
  (0 < length x)%nat ->
  let n := inject_Z (Z.of_nat (length x)) in
  n * n * var x == n * Sxy x x - Qsum x * Qsum x.
Proof. intros Hpos. now apply cov_sums. Qed.

Lemma combine_diag {A} (l : list A) : combine l l = map (fun a => (a, a)) l.
Proof. induction l as [|a l IH]; simpl; congruence. Qed.

(** With variance zero every value is the mean. *)
Lemma var_zero_mean x :
  (0 < length x)%nat -> var x == 0 -> forall a, In a x -> a == mean x.
Proof.
  intros Hpos Hvar.
  pose (n := inject_Z (Z.of_nat (length x))).
  assert (Hn : 0 < n) by now apply count_pos.
  assert (Hm : forall a, In a x -> a - mean x == 0).
  { apply (Qsum_squares_zero (fun a => a - mean x)).
    unfold var, cov in Hvar. unfold mean at 1 in Hvar.
    rewrite length_map, length_combine, Nat.min_id in Hvar. fold n in Hvar.
    rewrite combine_diag, map_map in Hvar. cbn [fst snd] in Hvar.
    assert (E : forall s, s / n == 0 -> s == 0).
    { intros s Hs. setoid_replace s with (s / n * n); [rewrite Hs; ring|].
      field. lra. }
    now apply E. }
  intros a Ha. specialize (Hm a Ha). lra.
Qed.


(** ** [polyfit1] *)

Lemma polyfit1_det x y :
  let n := inject_Z (Z.of_nat (length x)) in
  let det := n * Sxy x x - Qsum x * Qsum x in
  (det == 0 -> Qsum x / n == 0 -> polyfit1 x y = None) /\
  (det == 0 -> ~ Qsum x / n == 0 ->
   polyfit1 x y =
   Some (Qsum y / n / (2 * (Qsum x / n)), Qsum y / n / 2)) /\
  (~ det == 0 ->
   polyfit1 x y =
   Some ((n * Sxy x y - Qsum x * Qsum y) / det,
         (Qsum y - (n * Sxy x y - Qsum x * Qsum y) / det * Qsum x) / n)).
Proof.
  intros n det. unfold polyfit1. fold n. fold det.
  split; [|split]; intros H.
  - intros Ha. apply Qeq_bool_iff in H, Ha. now rewrite H, Ha.
  - intros Ha. apply Qeq_bool_iff in H. rewrite H.
    destruct (Qeq_bool (Qsum x / n) 0) eqn:E; [|reflexivity].
    apply Qeq_bool_iff in E. contradiction.
  - destruct (Qeq_bool det 0) eqn:E; [|reflexivity].
    apply Qeq_bool_iff in E. contradiction.
Qed.

(** The sums of a column whose values are all [h]. *)
Lemma constant_sums h l y :
  (forall a, In a l -> a == h) -> length l = length y ->
  Qsum l == inject_Z (Z.of_nat (length l)) * h /\
  Sxy l l == inject_Z (Z.of_nat (length l)) * h * h /\
  Sxy l y == h * Qsum y.
Proof.
  revert y. induction l as [|a l IH]; intros [|b y] H Hlen; try discriminate.
  - unfold Sxy. simpl. repeat split; ring.
  - injection Hlen as Hlen.
    destruct (IH y) as (IH1 & IH2 & IH3);
      [intros c Hc; apply H; now right|exact Hlen|].
    assert (Ea : a == h) by (apply H; now left).
    rewrite !Sxy_cons. cbn [Qsum fold_right length].
    fold (Qsum l). fold (Qsum y).
    rewrite IH1, IH2, IH3, count_succ, Ea. repeat split; ring.
Qed.

(** [np.polyfit] raises exactly when every [x] is 0. *)
Lemma polyfit1_none_iff x y :
  (0 < length x)%nat ->
  (polyfit1 x y = None <-> forall a, In a x -> a == 0).
Proof.
  intros Hpos.
  pose (n := inject_Z (Z.of_nat (length x))).
  assert (Hn : 0 < n) by now apply count_pos.
  pose proof (var_sums x Hpos) as Hv. cbv zeta in Hv. fold n in Hv.
  destruct (polyfit1_det x y) as (H0 & H1 & H2). fold n in H0, H1, H2.
  split.
  - intros Hnone.
    destruct (Qeq_dec (n * Sxy x x - Qsum x * Qsum x) 0) as [E|E];
      [|rewrite (H2 E) in Hnone; discriminate].
    destruct (Qeq_dec (Qsum x / n) 0) as [Ea|Ea];
      [|rewrite (H1 E Ea) in Hnone; discriminate].
    assert (Hvar : var x == 0).
    { rewrite <- Hv in E. apply Qmult_integral in E.
      destruct E as [E|E]; [|exact E]. apply Qmult_integral in E. lra. }
    intros a Ha. rewrite (var_zero_mean x Hpos Hvar a Ha).
    exact Ea.
  - intros Hzero.
    destruct (constant_sums 0 x x Hzero eq_refl) as (E1 & E2 & _).
    apply H0.
    + rewrite E1, E2. ring.
    + rewrite E1. field. lra.
Qed.



(** ** Sample points *)

Lemma linspace_length start stop num : length (linspace start stop num) = num.
Proof. unfold linspace. now rewrite length_map, length_seq. Qed.

Lemma linspace_nth start stop num i :
  (i < num)%nat ->
  nth_error (linspace start stop num) i =
  Some (start + inject_Z (Z.of_nat i)
                * ((stop - start) / inject_Z (Z.of_nat (num - 1)))).
Proof.
  intros Hi. unfold linspace. rewrite nth_error_map.
  rewrite nth_error_nth' with (d := 0%nat) by now rewrite length_seq.
  now rewrite seq_nth.
Qed.

(** The first point is [start] and, with at least two points, the last one
    is [stop]; consecutive points are one step apart. *)
Lemma linspace_ends start stop num :
  (2 <= num)%nat ->
  let step := (stop - start) / inject_Z (Z.of_nat (num - 1)) in
  start + inject_Z (Z.of_nat 0) * step == start /\
  start + inject_Z (Z.of_nat (num - 1)) * step == stop.
Proof.
  intros Hnum step. split.
  - simpl. ring.
  - unfold step. field.
    apply Qnot_eq_sym, Qlt_not_eq, count_pos. lia.
Qed.

Lemma Qmin_list_spec l :
  l <> [] ->
  (forall v, In v l -> Qmin_list l <= v) /\
  (exists v, In v l /\ v == Qmin_list l).
Proof.
  destruct l as [|h t]; [congruence|]. intros _. simpl.
  induction t as [|a t [IHle (w & Hw & Ew)]]; simpl.
  - split.
    + intros v [<-|[]]. apply Qle_refl.
    + exists h. split; [now left|reflexivity].
  - split.
    + intros v [<-|[<-|Hv]].
      * apply Qle_trans with (fold_right Qmin h t);
          [apply Q.le_min_r|apply IHle; now left].
      * apply Q.le_min_l.
      * apply Qle_trans with (fold_right Qmin h t);
          [apply Q.le_min_r|apply IHle; now right].
    + destruct (Q.min_spec a (fold_right Qmin h t)) as [[_ E]|[_ E]].
      * exists a. split; [right; now left|now rewrite E].
      * exists w. split; [|now rewrite E].
        destruct Hw as [<-|Hw]; [now left|right; now right].
Qed.

Lemma Qmax_list_spec l :
  l <> [] ->
  (forall v, In v l -> v <= Qmax_list l) /\
  (exists v, In v l /\ v == Qmax_list l).
Proof.
  destruct l as [|h t]; [congruence|]. intros _. simpl.
  induction t as [|a t [IHle (w & Hw & Ew)]]; simpl.
  - split.
    + intros v [<-|[]]. apply Qle_refl.
    + exists h. split; [now left|reflexivity].
  - split.
    + intros v [<-|[<-|Hv]].
      * apply Qle_trans with (fold_right Qmax h t);
          [apply IHle; now left|apply Q.le_max_r].
      * apply Q.le_max_l.
      * apply Qle_trans with (fold_right Qmax h t);
          [apply IHle; now right|apply Q.le_max_r].
    + destruct (Q.max_spec a (fold_right Qmax h t)) as [[_ E]|[_ E]].
      * exists w. split; [|now rewrite E].
        destruct Hw as [<-|Hw]; [now left|right; now right].
      * exists a. split; [right; now left|now rewrite E].
Qed.

(** ** Scatter with fit *)

Lemma chart_d_few sea_data c y :
  (length (filter (selected c y) sea_data) < 2)%nat ->
  chart_d sea_data c y =
  Some {| markers :=
            map (fun r => (export_USD r, import_USD r))
                (filter (selected c y) sea_data);
          ols_fit := None |}.
Proof.
  intros H. unfold chart_d.
  destruct (Nat.leb_spec 2 (length (filter (selected c y) sea_data)));
    [lia|reflexivity].
Qed.

Lemma chart_d_fit sea_data c y :
  (2 <= length (filter (selected c y) sea_data))%nat ->
  let sel := filter (selected c y) sea_data in
  let x := map export_USD sel in
  chart_d sea_data c y =
  match polyfit1 x (map import_USD sel) with
  | None => None
  | Some (b1, b0) =>
      Some {| markers := map (fun r => (export_USD r, import_USD r)) sel;
              ols_fit :=
                Some {| b1 := b1; b0 := b0;
                        xs := linspace (Qmin_list x) (Qmax_list x) 100;
                        ys := map (fun v => b1 * v + b0)
                                (linspace (Qmin_list x) (Qmax_list x) 100) |}
           |}
  end.
Proof.
  intros H sel x. unfold chart_d. fold sel. fold x.
  destruct (Nat.leb_spec 2 (length sel)); [reflexivity|unfold sel in *; lia].
Qed.

(** With two or more selected records, [chart_d] has no result exactly
    when none of them has any export. *)
Lemma chart_d_none_iff sea_data c y :
  (2 <= length (filter (selected c y) sea_data))%nat ->
  (chart_d sea_data c y = None <->
   forall r, In r (filter (selected c y) sea_data) -> export_USD r == 0).
Proof.
  intros H. rewrite (chart_d_fit _ _ _ H). cbv zeta.
  set (sel := filter (selected c y) sea_data) in *.
  assert (Hpos : (0 < length (map export_USD sel))%nat)
    by (rewrite length_map; lia).
  pose proof (polyfit1_none_iff (map export_USD sel) (map import_USD sel)
                Hpos) as Hnone.
  split.
  - intros E r Hr.
    destruct (polyfit1 (map export_USD sel) (map import_USD sel))
      as [[? ?]|]; [discriminate|].
    apply (proj1 Hnone eq_refl). now apply in_map.
  - intros Heq.
    rewrite (proj2 Hnone); [reflexivity|].
    intros a Ha. apply in_map_iff in Ha.
    destruct Ha as (r & <- & Hr). now apply Heq.
Qed.




(** C10. The claim does not hold of [chart_d]: the guard admits every
    selection of two or more records, but for two records without exports
    (the same export value, 0) the variance of the exports is zero, the
    normal equations are singular and the fit is not defined. *)
Theorem chart_d_undefined_for_constant_exports :
  length (filter (selected "Malaysia" 2020) zero_export_data) = 2%nat /\
  var (map export_USD (filter (selected "Malaysia" 2020) zero_export_data))
    == 0 /\
  polyfit1 [0; 0] [50; 80] = None /\
  chart_d zero_export_data "Malaysia" 2020 = None.
Proof.
  split; [reflexivity|]. split; [vm_compute; reflexivity|].
  split; [reflexivity|].
  apply chart_d_none_iff.
  - simpl. lia.
  - intros r Hr. simpl in Hr.
    destruct Hr as [<-|[<-|[]]]; reflexivity.
Qed.
(** ** Further properties *)

(** X1. Every row of [update_top_partners] is a row of the frame of
    [chart_g] for the same country and year. *)
Theorem top_partners_subset_of_contribution
    (sort_values : list PartnerRow -> list PartnerRow) (observed : bool)
    (sea_data : DataFrame) (c : string) (y : Z) :
  SortValuesContract sort_values ->
  incl (update_top_partners sort_values observed sea_data c y)
       (chart_g observed sea_data c y).
Proof.
  intros Hsort r Hr. now apply (top_rows_in_groups sort_values).
Qed.

Lemma top_partners_subset_of_contribution_witness :
  incl (update_top_partners sort_values_stable true example_data
          "Malaysia" 2020)
       (chart_g true example_data "Malaysia" 2020).
Proof.
  exact (top_partners_subset_of_contribution sort_values_stable true
           example_data "Malaysia"%string 2020%Z
           sort_values_stable_contract).
Defined.



(** ** Outcome of the loader *)


(** ** Choices of the dropdown *)

Lemma priority_NoDup : NoDup priority.
Proof.
  unfold priority. repeat constructor; simpl; intuition discriminate.
Qed.

Lemma others_In sea_data c :
  In c (others sea_data) <->
  (exists r, In r sea_data /\ country r = c) /\ ~ In c priority.
Proof.
  unfold others. rewrite filter_In, categories_In, in_map_iff, negb_true_iff.
  rewrite <- isin_In.
  assert (E : (exists x, country x = c /\ In x sea_data) <->
              (exists r, In r sea_data /\ country r = c)).
  { split; intros (r & H1 & H2); exists r; now split. }
  rewrite E. destruct (isin c priority); split; intros [H1 H2];
    (split; [exact H1|]); congruence.
Qed.

(** X4. The dropdown offers the four priority countries first, in their
    fixed order, then the other countries of the dataset in increasing
    label order; no country is offered twice, and a country is offered
    exactly when it is one of the four or occurs in the dataset.  Each
    option has its country as label and as value. *)
Theorem COUNTRY_CHOICES_spec (sea_data : DataFrame) :
  NoDup (COUNTRY_CHOICES sea_data) /\
  (forall c, In c (COUNTRY_CHOICES sea_data) <->
             In c priority \/ exists r, In r sea_data /\ country r = c) /\
  firstn 4 (COUNTRY_CHOICES sea_data) = priority /\
  skipn 4 (COUNTRY_CHOICES sea_data) = others sea_data /\
  StronglySorted string_lt (others sea_data) /\
  (forall c, In c (others sea_data) -> ~ In c priority) /\
  map fst (dropdown_options sea_data) = COUNTRY_CHOICES sea_data /\
  map snd (dropdown_options sea_data) = COUNTRY_CHOICES sea_data.
Proof.
  unfold COUNTRY_CHOICES, dropdown_options.
  split; [|split; [|split; [|split; [|split; [|split; [|split]]]]]].
  - apply NoDup_app; [exact priority_NoDup| |].
    + unfold others. apply NoDup_filter, categories_NoDup.
    + intros c Hp Ho. apply others_In in Ho. tauto.
  - intros c. rewrite in_app_iff, others_In. split.
    + intros [H|[H _]]; [now left|now right].
    + intros [H|H]; [now left|].
      destruct (in_dec string_dec c priority) as [Hp|Hp]; [now left|].
      right. now split.
  - reflexivity.
  - reflexivity.
  - unfold others. apply StronglySorted_filter, categories_sorted.
  - intros c Hc. apply others_In in Hc. tauto.
  - rewrite map_map. apply map_id.
  - rewrite map_map. apply map_id.
Qed.

(** ** Slider and reachable filters *)

Lemma py_range_In lo hi y : In y (py_range lo hi) <-> (lo <= y < hi)%Z.
Proof.
  unfold py_range. rewrite in_map_iff. split.
  - intros (i & <- & Hi). apply in_seq in Hi. lia.
  - intros H. exists (Z.to_nat (y - lo)). split; [lia|].
    apply in_seq. lia.
Qed.

Lemma py_range_length lo hi : length (py_range lo hi) = Z.to_nat (hi - lo).
Proof. unfold py_range. now rewrite length_map, length_seq. Qed.

Lemma year_bounds sea_data r :
  In r sea_data ->
  exists lo hi,
    YEAR_MIN sea_data = Some lo /\ YEAR_MAX sea_data = Some hi /\
    (lo <= year r <= hi)%Z /\ (lo <= 2015)%Z /\ (2022 <= hi)%Z.
Proof.
  intros Hr. destruct sea_data as [|r0 rest]; [destruct Hr|].
  pose proof (fold_min_spec (year r0) (map year rest)) as [_ Hmle].
  pose proof (fold_max_spec (year r0) (map year rest)) as [_ HMle].
  assert (Hy : In (year r) (year r0 :: map year rest)).
  { change (year r0 :: map year rest) with (map year (r0 :: rest)).
    now apply in_map. }
  specialize (Hmle _ Hy). specialize (HMle _ Hy).
  exists (Z.min (fold_right Z.min (year r0) (map year rest)) 2015),
         (Z.max (fold_right Z.max (year r0) (map year rest)) 2022).
  split; [reflexivity|]. split; [reflexivity|]. lia.
Qed.

(** X5. Every record of the dataset can be reached with the two inputs of
    the sidebar: its country is among the choices of the dropdown, its year
    lies between the ends of the slider and has a mark showing that year,
    and with that country and year selected the record is a row of the
    table.  The slider always covers 2015 to 2022, and it has one mark per
    year from its lower to its upper end. *)
Theorem filters_reach_every_record (sea_data : DataFrame) (r : TradeRecord) :
  In r sea_data ->
  In (country r) (COUNTRY_CHOICES sea_data) /\
  (exists lo hi marks,
     YEAR_MIN sea_data = Some lo /\ YEAR_MAX sea_data = Some hi /\
     (lo <= year r <= hi)%Z /\ (lo <= 2015)%Z /\ (2022 <= hi)%Z /\
     slider_marks sea_data = Some marks /\
     In (year r, py_str (year r)) marks /\
     (forall y, In y (map fst marks) <-> (lo <= y <= hi)%Z) /\
     Z.of_nat (length marks) = (hi - lo + 1)%Z) /\
  In (table_row r)
     (fst (fst (update_table sea_data (country r) (year r)))).
Proof.
  intros Hr. split; [|split].
  - unfold COUNTRY_CHOICES. apply in_app_iff.
    destruct (in_dec string_dec (country r) priority) as [Hp|Hp];
      [now left|right].
    apply others_In. split; [now exists r|exact Hp].
  - destruct (year_bounds sea_data r Hr) as (lo & hi & Hlo & Hhi & Hy & H1 & H2).
    exists lo, hi, (map (fun y => (y, py_str y)) (py_range lo (hi + 1))).
    split; [exact Hlo|]. split; [exact Hhi|]. split; [exact Hy|].
    split; [exact H1|]. split; [exact H2|].
    split; [unfold slider_marks; now rewrite Hlo, Hhi|]. split; [|split].
    + apply in_map_iff. exists (year r). split; [reflexivity|].
      apply py_range_In. lia.
    + intros y. rewrite map_map. simpl. rewrite map_id, py_range_In. lia.
    + rewrite length_map, py_range_length. lia.
  - unfold update_table. simpl. apply in_map, filter_In.
    split; [exact Hr|]. now apply selected_true.
Qed.

Lemma filters_reach_every_record_witness :
  In (trade "Malaysia" "PartnerB" 2020 200 80) example_data /\
  In "Malaysia"%string (COUNTRY_CHOICES example_data) /\
  In (table_row (trade "Malaysia" "PartnerB" 2020 200 80))
     (fst (fst (update_table example_data "Malaysia" 2020))).
Proof.
  assert (Hin : In (trade "Malaysia" "PartnerB" 2020 200 80) example_data)
    by (right; now left).
  destruct (filters_reach_every_record example_data _ Hin) as (Hc & _ & Ht).
  split; [exact Hin|]. split; [exact Hc|exact Ht].
Defined.

(** ** The sidebar toggle *)

Lemma truthy_click j : truthy (Some (Z.of_nat (S j))) = true.
Proof.
  unfold truthy. apply negb_true_iff, Z.eqb_neq. lia.
Qed.

(** X6. After the page load and [k] clicks on the toggle button the
    sidebar is open exactly when [k] is odd; when it is open its column is
    shown (empty class) and the main column is 9 wide, and when it is
    closed its column is hidden (class "d-none") and the main column is 12
    wide.  A call without clicks keeps [is_open] and reports the hidden
    layout whatever [is_open] is. *)
Theorem sidebar_after_clicks (k : nat) :
  after_clicks k =
    (Nat.odd k,
     if Nat.odd k then EmptyString else "d-none"%string,
     if Nat.odd k then 9%Z else 12%Z) /\
  after_clicks (S (S k)) = after_clicks k /\
  (forall b, toggle_sidebar None b = (b, "d-none"%string, 12%Z)) /\
  (forall b, toggle_sidebar (Some 0%Z) b = (b, "d-none"%string, 12%Z)).
Proof.
  assert (H : forall j, after_clicks j =
            (Nat.odd j,
             if Nat.odd j then EmptyString else "d-none"%string,
             if Nat.odd j then 9%Z else 12%Z)).
  { induction j as [|j IH]; [reflexivity|].
    cbn [after_clicks]. rewrite IH. cbn [fst].
    unfold toggle_sidebar. rewrite truthy_click. cbv zeta.
    rewrite Nat.odd_succ, <- Nat.negb_odd.
    destruct (Nat.odd j); reflexivity. }
  split; [apply H|]. split; [|split; reflexivity].
  rewrite !H, !Nat.odd_succ, Nat.even_succ. reflexivity.
Qed.
(** ** The thousands format *)

Lemma commas_rev_strip ds :
  filter not_comma (commas_rev ds) = filter not_comma ds.
Proof.
  assert (H : forall l,
    filter not_comma (commas_rev l) = filter not_comma l /\
    (forall a, filter not_comma (commas_rev (a :: l))
               = filter not_comma (a :: l)) /\
    (forall a b, filter not_comma (commas_rev (a :: b :: l))
                 = filter not_comma (a :: b :: l))).
  { induction l as [|x l (IH0 & IH1 & IH2)].
    - repeat split.
    - split; [apply IH1|]. split; [intros a; apply IH2|].
      intros a b. destruct l as [|z l]; [reflexivity|].
      change (commas_rev (a :: b :: x :: z :: l))
        with (a :: b :: x :: ","%char :: commas_rev (z :: l)).
      cbn [filter]. change (not_comma ","%char) with false. cbv iota.
      now rewrite IH0. }
  apply H.
Qed.

Lemma digits_no_comma d :
  Forall (fun ch => not_comma ch = true)
         (list_ascii_of_string (NilEmpty.string_of_uint d)).
Proof. induction d; simpl; constructor; try reflexivity; assumption. Qed.

Lemma filter_all {A} (p : A -> bool) l :
  Forall (fun a => p a = true) l -> filter p l = l.
Proof.
  induction 1 as [|a l Ha _ IH]; simpl; [reflexivity|]. now rewrite Ha, IH.
Qed.

Lemma zero_uint_no_comma d :
  Forall (fun ch => not_comma ch = true)
         (list_ascii_of_string (NilZero.string_of_uint d)).
Proof.
  destruct d; try apply digits_no_comma. repeat constructor.
Qed.

Lemma strip_commas_grouped d :
  strip_commas
    (string_of_list_ascii
       (rev (commas_rev
               (rev (list_ascii_of_string (NilZero.string_of_uint d))))))
  = NilZero.string_of_uint d.
Proof.
  unfold strip_commas. rewrite list_ascii_of_string_of_list_ascii.
  fold not_comma.
  assert (Hrev : forall l, filter not_comma (rev l) = rev (filter not_comma l)).
  { induction l as [|a l IH]; simpl; [reflexivity|].
    rewrite filter_app, IH. simpl. destruct (not_comma a); simpl.
    - reflexivity.
    - now rewrite app_nil_r. }
  rewrite Hrev, commas_rev_strip, <- Hrev, rev_involutive.
  rewrite filter_all by apply zero_uint_no_comma.
  apply string_of_list_ascii_of_string.
Qed.

Lemma strip_commas_format n : strip_commas (format_thousands n) = py_str n.
Proof.
  unfold format_thousands, py_str.
  destruct n as [|p|p]; cbn [Z.ltb Z.compare Z.abs_N Z.to_int
                               NilZero.string_of_int].
  - reflexivity.
  - apply (strip_commas_grouped (Pos.to_uint p)).
  - pose proof (strip_commas_grouped (Pos.to_uint p)) as H.
    cbn [N.to_uint]. unfold strip_commas in *.
    cbn [list_ascii_of_string filter]. cbn. cbn in H. now rewrite H.
Qed.

Lemma int_of_py_str n :
  NilZero.int_of_string (py_str n) = Some (Z.to_int n).
Proof.
  unfold py_str. apply NilZero.isi.
  - destruct n as [|p|p]; simpl; try discriminate.
    intros [= H]. now apply (DecimalPos.Unsigned.to_uint_nonnil p).
  - destruct n as [|p|p]; simpl; try discriminate.
    intros [= H]. now apply (DecimalPos.Unsigned.to_uint_nonnil p).
Qed.

(** X7. The text that [fmt] shows for a sum reads back as the sum
    truncated toward zero: taking out the separators leaves [str(int(v))],
    and reading that as a decimal integer gives [int(v)].  So two sums are
    shown with the same text exactly when their integer parts are equal. *)
Theorem fmt_reads_back (v w : Q) :
  strip_commas (fmt v) = py_str (py_int v) /\
  read_thousands (fmt v) = Some (py_int v) /\
  (fmt v = fmt w <-> py_int v = py_int w).
Proof.
  assert (Hread : forall u, read_thousands (fmt u) = Some (py_int u)).
  { intros u. unfold read_thousands, fmt.
    rewrite strip_commas_format, int_of_py_str. simpl.
    now rewrite DecimalZ.of_to. }
  split; [apply strip_commas_format|]. split; [apply Hread|].
  split.
  - intros E. pose proof (Hread v) as Hv. rewrite E, Hread in Hv.
    now injection Hv.
  - intros E. unfold fmt. now rewrite E.
Qed.
(** ** Truncation of the shown sums *)

Lemma py_int_floor v : 0 <= v -> py_int v = Qfloor v.
Proof.
  intros H. unfold py_int, Qfloor. destruct v as [n d]. simpl.
  apply Z.quot_div_nonneg; [|reflexivity].
  unfold Qle in H. simpl in H. lia.
Qed.

Lemma py_int_opp v : py_int (- v) = (- py_int v)%Z.
Proof.
  unfold py_int. destruct v as [n d]. simpl. apply Z.quot_opp_l. discriminate.
Qed.

Lemma py_int_nonneg_bounds v :
  0 <= v -> inject_Z (py_int v) <= v /\ v < inject_Z (py_int v) + 1.
Proof.
  intros H. rewrite (py_int_floor v H). split.
  - apply Qfloor_le.
  - pose proof (Qlt_floor v) as Hlt.
    rewrite inject_Z_plus in Hlt. exact Hlt.
Qed.

Lemma Qlt_inject_Z a b : inject_Z a < inject_Z b + 1 -> (a <= b)%Z.
Proof.
  intros H. change 1 with (inject_Z 1) in H.
  rewrite <- inject_Z_plus, <- Zlt_Qlt in H. lia.
Qed.

(** X8. [int(v)] truncates toward zero: for a sum that is not negative
    the shown integer is at most the sum and less than one below it; for a
    sum that is not positive it is at least the sum and less than one above
    it.  The shown integer is never of the opposite sign. *)
Theorem py_int_truncates (v : Q) :
  (0 <= v ->
   (0 <= py_int v)%Z /\
   inject_Z (py_int v) <= v /\ v < inject_Z (py_int v) + 1) /\
  (v <= 0 ->
   (py_int v <= 0)%Z /\
   v <= inject_Z (py_int v) /\ inject_Z (py_int v) - 1 < v).
Proof.
  split; intros H.
  - destruct (py_int_nonneg_bounds v H) as [H1 H2].
    split; [|now split].
    apply Qlt_inject_Z. change (inject_Z 0) with 0. lra.
  - assert (Hn : 0 <= - v) by lra.
    destruct (py_int_nonneg_bounds (- v) Hn) as [H1 H2].
    rewrite py_int_opp, inject_Z_opp in H1, H2.
    split; [|split; lra].
    apply Qlt_inject_Z. change (inject_Z 0) with 0. lra.
Qed.

(** ** Grouped sums add up to the total *)

Lemma Qsum_zeros {A} (l : list A) : Qsum (map (fun _ => 0) l) == 0.
Proof. induction l as [|a l IH]; simpl; [reflexivity|]. rewrite IH. ring. Qed.

Lemma Qsum_perm l l' : Permutation l l' -> Qsum l == Qsum l'.
Proof.
  induction 1 as [|a l l' _ IH|a b l|l1 l2 l3 _ IH1 _ IH2]; simpl.
  - reflexivity.
  - now rewrite IH.
  - ring.
  - now rewrite IH1.
Qed.

(** The indicator of one key, summed over a list of distinct keys that
    holds it, counts once. *)
Lemma Qsum_indicator {K} (eqb : K -> K -> bool) keys k v :
  (forall a b, eqb a b = true <-> a = b) ->
  NoDup keys -> In k keys ->
  Qsum (map (fun k' => if eqb k k' then v else 0) keys) == v.
Proof.
  intros Heqb. induction 1 as [|h t Hh Ht IH]; simpl; [tauto|].
  intros [->|Hin].
  - rewrite (proj2 (Heqb k k) eq_refl).
    rewrite (Qsum_map_ext _ (fun _ => 0)), Qsum_zeros; [ring|].
    intros a Ha. destruct (eqb k a) eqn:E; [|reflexivity].
    apply Heqb in E. now subst a.
  - destruct (eqb k h) eqn:E.
    + apply Heqb in E. now subst h.
    + rewrite (IH Hin). ring.
Qed.

(** Summing a column group by group gives the sum of the column, when the
    keys are distinct and every row has its key among them. *)
Lemma group_sums_partition {K} (eqb : K -> K -> bool) keys
    (key : TradeRecord -> K) (f : TradeRecord -> Q) df :
  (forall a b, eqb a b = true <-> a = b) ->
  NoDup keys -> (forall r, In r df -> In (key r) keys) ->
  Qsum (map (fun k => Qsum (map f (filter (fun r => eqb (key r) k) df))) keys)
  == Qsum (map f df).
Proof.
  intros Heqb Hnd. induction df as [|r l IH]; intros Hcov.
  - simpl. apply Qsum_zeros.
  - rewrite (Qsum_map_ext _
      (fun k => (if eqb (key r) k then f r else 0)
                + Qsum (map f (filter (fun r0 => eqb (key r0) k) l)))).
    + rewrite Qsum_map_plus, IH by (intros x Hx; apply Hcov; now right).
      rewrite (Qsum_indicator eqb keys (key r) (f r) Heqb Hnd)
        by (apply Hcov; now left).
      reflexivity.
    + intros k _. simpl. destruct (eqb (key r) k); simpl; ring.
Qed.

Lemma chart_g_keys_cover observed sea_data c y r :
  In r (filter (selected c y) sea_data) ->
  In (partner_name r)
     (group_keys String.eqb observed (categories (map partner_name sea_data))
        partner_name (filter (selected c y) sea_data)).
Proof.
  intros Hr. apply (group_keys_In _ _ _ _ _ _ String.eqb_eq). split.
  - apply categories_In, in_map. apply filter_In in Hr. tauto.
  - intros _. now exists r.
Qed.

(** X10. In exact arithmetic the partner rows of [chart_g] split the
    totals of [kpis]: for the same country and year, the [total_export] of
    the rows add up to the export sum of [kpis], the [total_import] to its
    import sum and the [total_trade] to its total trade, whatever the
    default of [observed].  (The float64 sums of the code agree with the
    exact sums up to rounding.) *)
Theorem partner_totals_add_up
    (observed : bool) (sea_data : DataFrame) (c : string) (y : Z) :
  exists total_trade_kpi total_export_kpi total_import_kpi trade_balance_kpi,
    kpis_totals sea_data c y =
      (total_trade_kpi, total_export_kpi, total_import_kpi,
       trade_balance_kpi) /\
    Qsum (map total_export (chart_g observed sea_data c y))
      == total_export_kpi /\
    Qsum (map (fun r => nan_to_zero (total_import r))
              (chart_g observed sea_data c y))
      == total_import_kpi /\
    Qsum (map (fun r => nan_to_zero (total_trade r))
              (chart_g observed sea_data c y))
      == total_trade_kpi.
Proof.
  eexists. eexists. eexists. eexists. split; [reflexivity|].
  set (filt := filter (selected c y) sea_data).
  set (keys := group_keys String.eqb observed
                 (categories (map partner_name sea_data)) partner_name filt).
  assert (Hnd : NoDup keys) by apply group_keys_NoDup, categories_NoDup.
  assert (Hcov : forall r, In r filt -> In (partner_name r) keys)
    by (intros r; apply chart_g_keys_cover).
  assert (He := group_sums_partition String.eqb keys partner_name export_USD
                  filt String.eqb_eq Hnd Hcov).
  assert (Hi := group_sums_partition String.eqb keys partner_name import_USD
                  filt String.eqb_eq Hnd Hcov).
  unfold chart_g. fold filt. fold keys. rewrite !map_map.
  cbn [total_export total_import total_trade nan_to_zero].
  split; [exact He|]. split; [exact Hi|].
  rewrite Qsum_map_plus, He, Hi. symmetry. apply Qsum_map_plus.
Qed.

Lemma firstn_all_length {A} n (l : list A) :
  (length l <= n)%nat -> firstn n l = l.
Proof. intros H. now apply firstn_all2. Qed.

(** X11. When the selected records have at most 10 partner groups,
    [update_top_partners] leaves none out: its rows are the rows of
    [chart_g] rearranged, and in exact arithmetic their [total_trade] add
    up to the sum of export plus import over the selected records.  (The
    float64 sums of the code agree with the exact sums up to rounding.) *)
Theorem top_partners_complete_up_to_ten
    (sort_values : list PartnerRow -> list PartnerRow) (observed : bool)
    (sea_data : DataFrame) (c : string) (y : Z) :
  SortValuesContract sort_values ->
  (length (chart_g observed sea_data c y) <= 10)%nat ->
  Permutation (chart_g observed sea_data c y)
              (update_top_partners sort_values observed sea_data c y) /\
  Qsum (map (fun r => nan_to_zero (total_trade r))
            (update_top_partners sort_values observed sea_data c y))
  == Qsum (map (fun r => export_USD r + import_USD r)
               (filter (selected c y) sea_data)).
Proof.
  intros Hsort Hlen.
  assert (Hperm : Permutation (chart_g observed sea_data c y)
            (update_top_partners sort_values observed sea_data c y)).
  { rewrite top_firstn_sorted_groups.
    destruct Hsort as [Hp _].
    rewrite firstn_all_length; [apply Hp|].
    now rewrite <- (Permutation_length (Hp _)). }
  split; [exact Hperm|].
  rewrite <- (Qsum_perm _ _ (Permutation_map _ Hperm)).
  set (filt := filter (selected c y) sea_data).
  set (keys := group_keys String.eqb observed
                 (categories (map partner_name sea_data)) partner_name filt).
  assert (Hnd : NoDup keys) by apply group_keys_NoDup, categories_NoDup.
  assert (Hcov : forall r, In r filt -> In (partner_name r) keys)
    by (intros r; apply chart_g_keys_cover).
  unfold chart_g. fold filt. fold keys. rewrite map_map.
  cbn [total_trade nan_to_zero].
  rewrite Qsum_map_plus, Qsum_map_plus.
  rewrite (group_sums_partition String.eqb keys partner_name export_USD
             filt String.eqb_eq Hnd Hcov).
  rewrite (group_sums_partition String.eqb keys partner_name import_USD
             filt String.eqb_eq Hnd Hcov).
  reflexivity.
Qed.

Lemma top_partners_complete_up_to_ten_witness :
  (length (chart_g true example_data "Malaysia" 2020) <= 10)%nat /\
  Permutation (chart_g true example_data "Malaysia" 2020)
    (update_top_partners sort_values_stable true example_data
       "Malaysia" 2020).
Proof.
  assert (Hlen : (length (chart_g true example_data "Malaysia" 2020)
                  <= 10)%nat) by (simpl; lia).
  split; [exact Hlen|].
  exact (proj1 (top_partners_complete_up_to_ten sort_values_stable true
                  example_data "Malaysia"%string 2020%Z
                  sort_values_stable_contract Hlen)).
Defined.
(** ** Trend by year *)

Lemma chart_c_group sea_data c y :
  filter (fun r => Z.eqb (year r) y)
         (filter (fun r => String.eqb (country r) c) sea_data)
  = filter (selected c y) sea_data.
Proof. rewrite filter_filter. reflexivity. Qed.

Lemma chart_c_years sea_data c :
  map tr_year (chart_c sea_data c) =
  sorted_unique Z.compare
    (map year (filter (fun r => String.eqb (country r) c) sea_data)).
Proof. unfold chart_c. rewrite map_map. apply map_id. Qed.

(** X12. The frame of [chart_c] for a country has one row for each year
    in which the country has a record, the years strictly increasing.  In
    exact arithmetic the row of a year carries the export sum and the
    import sum that [kpis] computes for that country and year, and the
    export sums of the rows add up to the sum of the exports of all records
    of the country, the import sums likewise.  (The float64 sums of the
    code agree with the exact sums up to rounding.) *)
Theorem chart_c_trend (sea_data : DataFrame) (c : string) :
  let rows := chart_c sea_data c in
  let sel := filter (fun r => String.eqb (country r) c) sea_data in
  StronglySorted Z.lt (map tr_year rows) /\
  (forall y, In y (map tr_year rows) <->
             exists r, In r sea_data /\ country r = c /\ year r = y) /\
  (forall row, In row rows ->
     exists tt tb,
       kpis_totals sea_data c (tr_year row) =
         (tt, tr_export_USD row, tr_import_USD row, tb)) /\
  Qsum (map tr_export_USD rows) == Qsum (map export_USD sel) /\
  Qsum (map tr_import_USD rows) == Qsum (map import_USD sel).
Proof.
  intros rows sel.
  assert (Hnd : NoDup (sorted_unique Z.compare (map year sel))).
  { apply (StronglySorted_irrefl_NoDup Z.lt); [intros a; lia|].
    apply years_sorted. }
  assert (Hcov : forall r, In r sel ->
            In (year r) (sorted_unique Z.compare (map year sel))).
  { intros r Hr. apply years_In. now apply in_map. }
  split; [|split; [|split; [|split]]].
  - unfold rows. rewrite chart_c_years. apply years_sorted.
  - intros y. unfold rows. rewrite chart_c_years, years_In, in_map_iff.
    split.
    + intros (r & E & Hr). apply filter_In in Hr. destruct Hr as [Hr Hc].
      apply String.eqb_eq in Hc. now exists r.
    + intros (r & Hr & Hc & E). exists r. split; [exact E|].
      apply filter_In. split; [exact Hr|]. now apply String.eqb_eq.
  - intros row Hrow. unfold rows, chart_c in Hrow. apply in_map_iff in Hrow.
    destruct Hrow as (y & <- & _). cbn [tr_year tr_export_USD tr_import_USD].
    rewrite chart_c_group. eexists. eexists. reflexivity.
  - unfold rows, chart_c. fold sel. rewrite map_map. cbn [tr_export_USD].
    apply (group_sums_partition Z.eqb _ year export_USD sel Z.eqb_eq Hnd Hcov).
  - unfold rows, chart_c. fold sel. rewrite map_map. cbn [tr_import_USD].
    apply (group_sums_partition Z.eqb _ year import_USD sel Z.eqb_eq Hnd Hcov).
Qed.

(** X13. Whenever [chart_a] returns a frame, for one of its four
    countries every point of the trend of [chart_c] has its bar in
    [chart_a]: in exact arithmetic the row of [chart_a] for that country
    and year carries as [trade_value] the export sum plus the import sum of
    the row of [chart_c]. *)
Theorem trend_matches_totals
    (observed : bool) (sea_data : DataFrame) (c : string) (row : TrendRow)
    (bars : list TotalsRow) :
  chart_a exact_arith observed sea_data = Some bars ->
  In c priority -> In row (chart_c sea_data c) ->
  exists bar tv,
    In bar bars /\
    ta_country bar = Some c /\ ta_year bar = tr_year row /\
    ta_trade_value bar = Some tv /\
    tv == tr_export_USD row + tr_import_USD row.
Proof.
  intros Hbars Hc Hrow. apply isin_In in Hc.
  assert (Hy : exists r, In r sea_data /\ country r = c /\
                         year r = tr_year row).
  { assert (H : In (tr_year row) (map tr_year (chart_c sea_data c)))
      by now apply in_map.
    rewrite chart_c_years, years_In, in_map_iff in H.
    destruct H as (r & E & Hr). apply filter_In in Hr.
    destruct Hr as [Hr Hrc]. apply String.eqb_eq in Hrc. now exists r. }
  destruct Hy as (r & Hr & Hrc & Hry).
  unfold chart_c in Hrow. apply in_map_iff in Hrow.
  destruct Hrow as (y & <- & _).
  cbn [tr_year tr_export_USD tr_import_USD] in *. rewrite chart_c_group.
  destruct (chart_a_frame _ _ _ _ Hbars) as (keys & _ & Hkeys & Hall).
  assert (Hk : In (c, y) keys).
  { apply Hkeys. exists r. cbn [fst snd]. subst c. tauto. }
  destruct (Forall2_In_l _ _ _ _ Hall Hk) as (bar & Hin & H1 & H2 & H3).
  cbn [fst snd] in *.
  exists bar. eexists. split; [exact Hin|]. split; [exact H1|].
  split; [exact H2|]. split; [exact H3|]. reflexivity.
Qed.

Lemma trend_matches_totals_witness :
  exists bar tv,
    chart_a exact_arith true example_data = Some [bar] /\
    ta_country bar = Some "Malaysia"%string /\ ta_year bar = 2020%Z /\
    ta_trade_value bar = Some tv /\ tv == 430.
Proof.
  assert (Hbars : exists bar, chart_a exact_arith true example_data = Some [bar]).
  { eexists. vm_compute. reflexivity. }
  destruct Hbars as (b & Hbars).
  assert (Hc : In "Malaysia"%string priority) by now left.
  assert (Hrow : In (mkTrendRow 2020 (50 + (80 + 0)) (100 + (200 + 0)))
                    (chart_c example_data "Malaysia")) by now left.
  destruct (trend_matches_totals true example_data _ _ _ Hbars Hc Hrow)
    as (bar & tv & Hin & H1 & H2 & H3 & H4).
  destruct Hin as [<-|[]].
  exists b, tv. split; [exact Hbars|]. split; [exact H1|].
  split; [exact H2|]. split; [exact H3|]. rewrite H4. reflexivity.
Defined.

(** ** Balance by year and country *)






(** ** More on the fit line *)


(** What a figure with a fit line tells about the call of [chart_d]. *)
Lemma chart_d_fit_inv sea_data c y fig t :
  chart_d sea_data c y = Some fig -> ols_fit fig = Some t ->
  let sel := filter (selected c y) sea_data in
  let x := map export_USD sel in
  (2 <= length sel)%nat /\
  polyfit1 x (map import_USD sel) = Some (b1 t, b0 t) /\
  xs t = linspace (Qmin_list x) (Qmax_list x) 100 /\
  ys t = map (fun v => b1 t * v + b0 t) (xs t).
Proof.
  intros Hfig Hfit sel x.
  destruct (Nat.le_gt_cases 2 (length sel)) as [Hlen|Hlen].
  - rewrite (chart_d_fit _ _ _ Hlen) in Hfig. cbv zeta in Hfig.
    fold sel in Hfig. fold x in Hfig.
    destruct (polyfit1 x (map import_USD sel)) as [[s1 s0]|]; [|discriminate].
    injection Hfig as <-. cbn [ols_fit] in Hfit. injection Hfit as <-.
    cbn [b1 b0 xs ys]. repeat split. exact Hlen.
  - rewrite (chart_d_few _ _ _ Hlen) in Hfig. injection Hfig as <-.
    discriminate Hfit.
Qed.








(** X17. The fit line has 100 sample points and 100 values, and it is
    drawn over the observed range only: the first sample point is the
    smallest export of the selected records and the last one the largest;
    in exact arithmetic every sample point lies between the two and
    consecutive sample points are one 99th of that range apart.  (The
    float64 points of [np.linspace] agree with the exact ones up to
    rounding.) *)
Theorem fit_line_within_range
    (sea_data : DataFrame) (c : string) (y : Z)
    (fig : ScatterFigure) (t : OlsTrace) :
  chart_d sea_data c y = Some fig -> ols_fit fig = Some t ->
  let x := map export_USD (filter (selected c y) sea_data) in
  length (xs t) = 100%nat /\ length (ys t) = 100%nat /\
  (exists u, nth_error (xs t) 0 = Some u /\ u == Qmin_list x) /\
  (exists v, nth_error (xs t) 99 = Some v /\ v == Qmax_list x) /\
  (forall u, In u (xs t) -> Qmin_list x <= u <= Qmax_list x) /\
  (forall i u v, nth_error (xs t) i = Some u ->
                 nth_error (xs t) (S i) = Some v ->
                 v - u == (Qmax_list x - Qmin_list x) / 99).
Proof.
  intros Hfig Hfit x.
  destruct (chart_d_fit_inv _ _ _ _ _ Hfig Hfit) as (Hlen & _ & Hxs & Hys).
  fold x in Hxs.
  assert (Hne : x <> []).
  { unfold x. intros E. apply (f_equal (@length Q)) in E.
    rewrite length_map in E. simpl in E. lia. }
  destruct (Qmin_list_spec x Hne) as [Hmin (w & Hw & Ew)].
  destruct (Qmax_list_spec x Hne) as [Hmax _].
  assert (Hle : Qmin_list x <= Qmax_list x).
  { apply Qle_trans with w; [now apply Hmin|now apply Hmax]. }
  split; [rewrite Hxs; apply linspace_length|].
  split; [rewrite Hys, length_map, Hxs; apply linspace_length|].
  destruct (linspace_ends (Qmin_list x) (Qmax_list x) 100) as [E0 E99];
    [lia|].
  split; [|split; [|split]].
  - eexists. rewrite Hxs. split; [apply linspace_nth; lia|exact E0].
  - eexists. rewrite Hxs. split; [apply linspace_nth; lia|exact E99].
  - intros u Hu. rewrite Hxs in Hu. unfold linspace in Hu.
    apply in_map_iff in Hu. destruct Hu as (i & <- & Hi).
    apply in_seq in Hi. change (inject_Z (Z.of_nat (100 - 1))) with 99.
    assert (H0 : 0 <= inject_Z (Z.of_nat i)).
    { change 0 with (inject_Z 0). rewrite <- Zle_Qle. lia. }
    assert (H99 : inject_Z (Z.of_nat i) <= 99).
    { change 99 with (inject_Z 99). rewrite <- Zle_Qle. lia. }
    set (k := inject_Z (Z.of_nat i)) in *.
    set (d := Qmax_list x - Qmin_list x).
    assert (Hd : 0 <= d) by (unfold d; lra).
    set (e := d / 99).
    assert (He : d == 99 * e) by (unfold e; field).
    assert (He0 : 0 <= e) by lra.
    assert (Hke : 0 <= k * e) by nra.
    assert (Hke' : k * e <= 99 * e) by nra.
    unfold d in He. lra.
  - intros i u v Hu Hv. rewrite Hxs in Hu, Hv.
    assert (Hi : (S i < 100)%nat).
    { assert (H : (S i < length (linspace (Qmin_list x) (Qmax_list x) 100))%nat)
        by (apply nth_error_Some; congruence).
      now rewrite linspace_length in H. }
    rewrite linspace_nth in Hu by lia. rewrite linspace_nth in Hv by lia.
    injection Hu as <-. injection Hv as <-.
    change (Z.pos (Pos.of_succ_nat i)) with (Z.of_nat (S i)).
    rewrite count_succ. change (inject_Z 99) with 99. field.
Qed.

Lemma fit_line_within_range_witness :
  exists fig t,
    chart_d example_data "Malaysia" 2020 = Some fig /\
    ols_fit fig = Some t /\ length (xs t) = 100%nat.
Proof.
  destruct (chart_d example_data "Malaysia" 2020) as [fig|] eqn:Hfig;
    [|discriminate Hfig].
  destruct (ols_fit fig) as [t|] eqn:Hfit.
  - exists fig, t. split; [reflexivity|]. split; [exact Hfit|].
    exact (proj1 (fit_line_within_range example_data
                    "Malaysia"%string 2020%Z fig t Hfig Hfit)).
  - exfalso. vm_compute in Hfig. injection Hfig as <-. discriminate Hfit.
Defined.
